(** * RingApi (src/api/api.ts): directory builder and camera update coordinators

    A shallow embedding of the [RingApi] class.  Asynchronous methods are
    computations in a small reader/writer/error monad ([Async]): they read
    the answers of the REST client, log their observable effects (requests,
    console output, subscriptions) and end in one of three outcomes
    (resolved, rejected, process exited).  The reactive pipelines set up by
    [listenForCameraUpdates] are a state machine over virtual time in
    milliseconds. *)

From Stdlib Require Import ZArith String Ascii DecimalString DecimalPos
  DecimalZ.
From stdpp Require Import gmap strings list.

Open Scope Z_scope.

(** ** Data model (ring-types.ts, as far as api.ts reads it) *)

(** A camera record of a snapshot.  JavaScript compares objects by
    reference ([Array.prototype.includes]), so a record carries the identity
    of the object that holds it next to the two fields api.ts reads. *)
Record CameraData := {
  data_ref : nat;
  data_id : Z;
  data_location_id : string
}.

Record BaseStation := { base_location_id : string }.
Record BeamBridge := { bridge_location_id : string }.
Record UserLocation := { location_id : string }.
Record ActiveDing := { ding_id : Z; doorbot_id : Z }.

(** [RingAlarmOptions].  An optional field is [None] when it is absent
    ([locationIds]: absent or not an array); the polling intervals are
    whole numbers of seconds. *)
Record RingAlarmOptions := {
  locationIds : option (list string);
  cameraStatusPollingSeconds : option Z;
  cameraDingsPollingSeconds : option Z
}.

(** The body of the [ring_devices] response. *)
Record DevicesResponse := {
  r_doorbots : list CameraData;
  r_authorized_doorbots : list CameraData;
  r_stickup_cams : list CameraData;
  r_base_stations : list BaseStation;
  r_beams_bridges : list BeamBridge
}.

(** What the REST client answers while one method runs: [None] is a request
    that rejects; [using2fa] and [refreshToken] are the client's fields as
    they stand once the request has been made. *)
Record RingRestClient := {
  ring_devices : option DevicesResponse;
  user_locations : option (list UserLocation);
  active_dings : option (list ActiveDing);
  using2fa : bool;
  refreshToken : option string
}.

(** The object [fetchRingDevices] returns. *)
Record RingDevices := {
  doorbots : list CameraData;
  authorizedDoorbots : list CameraData;
  stickupCams : list CameraData;
  allCameras : list CameraData;
  baseStations : list BaseStation;
  beamBridges : list BeamBridge
}.

(** The fields of a [RingCamera] (ring-camera.ts) that api.ts relies on:
    the constructor arguments, and [id], fixed from the initial data. *)
Record RingCamera := {
  id : Z;
  data : CameraData;
  isDoorbot : bool;
  received : list ActiveDing
}.

Definition newRingCamera (d : CameraData) (doorbot : bool) : RingCamera :=
  {| id := data_id d; data := d; isDoorbot := doorbot; received := [] |}.

(** A [Location] (location.ts), as the record of its constructor arguments. *)
Record Location := {
  locationDetails : UserLocation;
  cameras : list RingCamera;
  hasHubs : bool
}.

(** ** JavaScript helpers *)

(** Truthiness of an optional string and of an optional number. *)
Definition truthy_string (s : option string) : bool :=
  match s with
  | Some EmptyString => false
  | Some _ => true
  | None => false
  end.

Definition truthy_number (n : option Z) : bool :=
  match n with
  | Some n => negb (n =? 0)
  | None => false
  end.

(** [array.includes(x)] on records: same object. *)
Definition includes (x : CameraData) (l : list CameraData) : bool :=
  existsb (fun y => Nat.eqb (data_ref y) (data_ref x)) l.

(** [array.includes(s)] on strings. *)
Definition includes_string (l : list string) (s : string) : bool :=
  existsb (String.eqb s) l.

(** Template-literal conversion of a number that is an integer in the range
    JavaScript numbers hold exactly ([safe_integer] below): its decimal
    digits.  Outside that range JavaScript prints rounded digits or an
    exponent (1e+21), which this function does not model. *)
Definition number_to_string (n : Z) : string :=
  NilZero.string_of_int (Z.to_int n).

Definition dquote : string := String (ascii_of_nat 34) EmptyString.

(** ** Outcomes, effects and the [Async] monad *)

Inductive Outcome (A : Type) : Type :=
| Resolved (a : A)
| Rejected
| Exited.
Arguments Resolved {A} a.
Arguments Rejected {A}.
Arguments Exited {A}.

(** One throttle/debounce/switchMap pipeline: the deadline of the pending
    debounce timer, the fetch whose promise [switchMap] is subscribed to,
    the fetches issued and not yet settled, and the next fetch number. *)
Record Pipeline := {
  timer : option Z;
  current : option nat;
  inflight : list nat;
  issued : nat
}.

(** What triggered a fetch. *)
Inductive Source := Manual | Poll.

(** Observations recorded while the pipelines run. *)
Inductive Obs :=
| StatusFetch (t : Z) (k : nat) (src : Source)
| StatusDone (t : Z) (k : nat)
| DingsFetch (t : Z) (k : nat)
| DingsDone (t : Z) (k : nat).

(** The state [listenForCameraUpdates] sets up: the registered camera
    objects (an object is its position in [registered]), [camerasById],
    the two [throttleTime(500)] stages (closed until the given time), the
    debounce delays in milliseconds ([None]: no polling), the pipelines and
    the log.  [clock] is the time elapsed since the subscription. *)
Record Listener := {
  clock : Z;
  registered : list RingCamera;
  camerasById : gmap Z nat;
  halted : bool;
  requestThrottle : option Z;
  mergedThrottle : option Z;
  statusDelay : option Z;
  dingsDelay : option Z;
  status : Pipeline;
  dings : Pipeline;
  trace : list Obs
}.

Inductive Effect :=
| Request (url : string)
| ConsoleError (msg : string)
| Subscribe (l : Listener).

Definition Async (A : Type) : Type :=
  RingRestClient -> list Effect * Outcome A.

#[global] Instance async_ret : MRet Async :=
  fun A (a : A) _ => ([], Resolved a).

#[global] Instance async_bind : MBind Async :=
  fun A B (f : A -> Async B) (m : Async A) rc =>
    match m rc with
    | (e, Resolved a) => let '(e', o) := f a rc in (e ++ e', o)
    | (e, Rejected) => (e, Rejected)
    | (e, Exited) => (e, Exited)
    end.

Definition effect (e : Effect) : Async unit := fun _ => ([e], Resolved tt).
Definition console_error (msg : string) : Async unit := effect (ConsoleError msg).
Definition process_exit {A} : Async A := fun _ => ([], Exited).
Definition client {A} (f : RingRestClient -> A) : Async A :=
  fun rc => ([], Resolved (f rc)).

(** [restClient.request({url})]: the request is logged, and resolves with
    the client's answer or rejects. *)
Definition request {A} (url : string) (answer : RingRestClient -> option A)
  : Async A :=
  fun rc =>
    ([Request url],
     match answer rc with
     | Some a => Resolved a
     | None => Rejected
     end).

(** [promise.catch(() => null)] *)
Definition catch_null {A} (m : Async A) : Async (option A) :=
  fun rc =>
    match m rc with
    | (e, Resolved a) => (e, Resolved (Some a))
    | (e, Rejected) => (e, Resolved None)
    | (e, Exited) => (e, Exited)
    end.

(** ** The methods of [RingApi] *)

Section RingApi.

(** [clientApi] (rest-client.ts) turns a path into the URL of the clients
    API; api.ts only passes paths to it. *)
Variable clientApi : string -> string.

Variable options : RingAlarmOptions.

Definition fetchRingDevices : Async RingDevices :=
  r ← request (clientApi "ring_devices") ring_devices;
  uses2fa ← client using2fa;
  token ← client refreshToken;
  if uses2fa && truthy_string token then
    console_error
      "Your Ring account is configured to use 2-factor authentication (2fa).";;
    console_error
      ("Please change your Ring configuration to include "
         +:+ dquote +:+ "refreshToken" +:+ dquote +:+ ": "
         +:+ dquote +:+ default "undefined" token +:+ dquote);;
    process_exit
  else
    mret {| doorbots := r_doorbots r;
            authorizedDoorbots := r_authorized_doorbots r;
            stickupCams := r_stickup_cams r;
            allCameras :=
              r_doorbots r ++ r_stickup_cams r ++ r_authorized_doorbots r;
            baseStations := r_base_stations r;
            beamBridges := r_beams_bridges r |}.

Definition fetchActiveDings : Async (list ActiveDing) :=
  request (clientApi "dings/active?burst=false") active_dings.

Definition fetchRawLocations : Async (list UserLocation) :=
  request "https://app.ring.com/rhq/v1/devices/v1/locations" user_locations.

(** *** listenForCameraUpdates: what is set up *)

(** [cameras.reduce((byId, camera) => { byId[camera.id] = camera; ... }, {})]:
    a later camera with the same id replaces an earlier one. *)
Fixpoint index_cameras (i : nat) (cs : list RingCamera) (byId : gmap Z nat)
  : gmap Z nat :=
  match cs with
  | [] => byId
  | camera :: cs => index_cameras (S i) cs (<[id camera := i]> byId)
  end.

(** [debounceTime(seconds * 1000)] is set up when [seconds] is truthy.
    Here [seconds] is a whole number; [listening] below takes the delay in
    milliseconds and so covers intervals that are fractions of a second. *)
Definition debounce_delay (seconds : option Z) : option Z :=
  if truthy_number seconds then (fun s => s * 1000) <$> seconds else None.

(** A pipeline whose subject was kicked off at time 0, if it polls. *)
Definition kicked_off (delay : option Z) : Pipeline :=
  {| timer := delay; current := None; inflight := []; issued := 0 |}.

Definition subscription (cams : list RingCamera) : Listener :=
  let statusD := debounce_delay (cameraStatusPollingSeconds options) in
  let dingsD := debounce_delay (cameraDingsPollingSeconds options) in
  {| clock := 0;
     registered := cams;
     camerasById := index_cameras 0 cams ∅;
     halted := false;
     requestThrottle := None;
     mergedThrottle := None;
     statusDelay := statusD;
     dingsDelay := dingsD;
     status := kicked_off statusD;
     dings := kicked_off dingsD;
     trace := [] |}.

Definition listenForCameraUpdates (cams : list RingCamera) : Async unit :=
  match cams with
  | [] => mret tt
  | _ :: _ => effect (Subscribe (subscription cams))
  end.

(** *** fetchAndBuildLocations *)

Definition buildCameras (d : RingDevices) : list RingCamera :=
  map (fun data =>
         newRingCamera data
           (includes data (doorbots d) || includes data (authorizedDoorbots d)))
      (allCameras d).

Definition keepLocation (location : UserLocation) : bool :=
  match locationIds options with
  | None => true
  | Some ids => includes_string ids (location_id location)
  end.

Definition buildLocations (rawLocations : list UserLocation) (d : RingDevices)
    (cams : list RingCamera) : list Location :=
  let locationIdsWithHubs :=
    map base_location_id (baseStations d)
      ++ map bridge_location_id (beamBridges d) in
  map (fun location =>
         {| locationDetails := location;
            cameras :=
              filter (fun x => data_location_id (data x) = location_id location)
                     cams;
            hasHubs := includes_string locationIdsWithHubs (location_id location) |})
      (filter (fun location => keepLocation location = true) rawLocations).

Definition fetchAndBuildLocations : Async (list Location) :=
  rawLocations ← fetchRawLocations;
  d ← fetchRingDevices;
  let cams := buildCameras d in
  let locations := buildLocations rawLocations d cams in
  listenForCameraUpdates cams;;
  mret locations.

(** *** The object: [locations], [getLocations], [getCameras], [getHistory] *)

(** A [RingApi] object holds the promise its field initialiser created. *)
Record RingApi := { locations : Outcome (list Location) }.

(** [new RingApi(options)]: the initialiser of [locations] starts the one
    build; the promise it leaves in the field settles with its outcome. *)
Definition newRingApi : Async RingApi :=
  fun rc =>
    match fetchAndBuildLocations rc with
    | (e, Exited) => (e, Exited)
    | (e, o) => (e, Resolved {| locations := o |})
    end.

(** Awaiting a promise already created: no effect of its own. *)
Definition await {A} (p : Outcome A) : Async A := fun _ => ([], p).

Definition getLocations (api : RingApi) : Async (list Location) :=
  await (locations api).

Definition getCameras (api : RingApi) : Async (list RingCamera) :=
  locs ← await (locations api);
  mret (fold_left (fun cams location => cams ++ cameras location) locs []).

(** The path [getHistory] hands to [clientApi]; absent arguments take the
    defaults of the signature. *)
Definition historyPath (limit : option Z) (favoritesOnly : option bool)
  : string :=
  let limit := default 10 limit in
  let favoritesOnly := default false favoritesOnly in
  let favoritesParam :=
    if favoritesOnly then "&favorites=1" else EmptyString in
  "doorbots/history?limit=" +:+ number_to_string limit +:+ favoritesParam.

Definition getHistory {A} (limit : option Z) (favoritesOnly : option bool)
    (answer : RingRestClient -> option A) : Async A :=
  request (clientApi (historyPath limit favoritesOnly)) answer.

End RingApi.

(** ** The pipelines of [listenForCameraUpdates] over virtual time

    The RxJS operators are modelled by their documented behaviour:
    [throttleTime(500)] lets a value through and then drops every value for
    500 ms; [debounceTime(d)] (re)starts a timer of [d] ms at every value and
    emits when the timer expires; [switchMap] starts the inner promise at
    every value it receives and forwards the result of the most recent one
    only (a promise that was replaced still runs, its result is dropped);
    a [Subject] delivers [next()] synchronously.  Time is in whole
    milliseconds; a throttle stage opened at [t] is closed on [t, t + 500),
    and a debounce timer due at the time of an event expires before the
    event is handled. *)

Definition set_pipeline_timer (d : option Z) (p : Pipeline) : Pipeline :=
  {| timer := d; current := current p; inflight := inflight p;
     issued := issued p |}.

(** [switchMap] receives a value: fetch number [issued p] starts and becomes
    the one whose result is awaited. *)
Definition start_fetch (p : Pipeline) : Pipeline :=
  {| timer := timer p; current := Some (issued p);
     inflight := issued p :: inflight p; issued := S (issued p) |}.

(** Promise [k] settles. *)
Definition settle_fetch (k : nat) (p : Pipeline) : Pipeline :=
  {| timer := timer p;
     current := if bool_decide (current p = Some k) then None else current p;
     inflight := filter (fun j => j ≠ k) (inflight p);
     issued := issued p |}.

Definition set_clock (t : Z) (l : Listener) : Listener :=
  {| clock := t; registered := registered l; camerasById := camerasById l;
     halted := halted l; requestThrottle := requestThrottle l;
     mergedThrottle := mergedThrottle l; statusDelay := statusDelay l;
     dingsDelay := dingsDelay l; status := status l; dings := dings l;
     trace := trace l |}.

Definition set_registered (cs : list RingCamera) (l : Listener) : Listener :=
  {| clock := clock l; registered := cs; camerasById := camerasById l;
     halted := halted l; requestThrottle := requestThrottle l;
     mergedThrottle := mergedThrottle l; statusDelay := statusDelay l;
     dingsDelay := dingsDelay l; status := status l; dings := dings l;
     trace := trace l |}.

Definition halt (l : Listener) : Listener :=
  {| clock := clock l; registered := registered l;
     camerasById := camerasById l; halted := true;
     requestThrottle := requestThrottle l;
     mergedThrottle := mergedThrottle l; statusDelay := statusDelay l;
     dingsDelay := dingsDelay l; status := status l; dings := dings l;
     trace := trace l |}.

Definition set_requestThrottle (u : option Z) (l : Listener) : Listener :=
  {| clock := clock l; registered := registered l;
     camerasById := camerasById l; halted := halted l;
     requestThrottle := u; mergedThrottle := mergedThrottle l;
     statusDelay := statusDelay l; dingsDelay := dingsDelay l;
     status := status l; dings := dings l; trace := trace l |}.

Definition set_mergedThrottle (u : option Z) (l : Listener) : Listener :=
  {| clock := clock l; registered := registered l;
     camerasById := camerasById l; halted := halted l;
     requestThrottle := requestThrottle l; mergedThrottle := u;
     statusDelay := statusDelay l; dingsDelay := dingsDelay l;
     status := status l; dings := dings l; trace := trace l |}.

Definition set_status (p : Pipeline) (l : Listener) : Listener :=
  {| clock := clock l; registered := registered l;
     camerasById := camerasById l; halted := halted l;
     requestThrottle := requestThrottle l;
     mergedThrottle := mergedThrottle l; statusDelay := statusDelay l;
     dingsDelay := dingsDelay l; status := p; dings := dings l;
     trace := trace l |}.

Definition set_dings (p : Pipeline) (l : Listener) : Listener :=
  {| clock := clock l; registered := registered l;
     camerasById := camerasById l; halted := halted l;
     requestThrottle := requestThrottle l;
     mergedThrottle := mergedThrottle l; statusDelay := statusDelay l;
     dingsDelay := dingsDelay l; status := status l; dings := p;
     trace := trace l |}.

Definition log (o : Obs) (l : Listener) : Listener :=
  {| clock := clock l; registered := registered l;
     camerasById := camerasById l; halted := halted l;
     requestThrottle := requestThrottle l;
     mergedThrottle := mergedThrottle l; statusDelay := statusDelay l;
     dingsDelay := dingsDelay l; status := status l; dings := dings l;
     trace := trace l ++ [o] |}.

(** A throttle stage lets a value through at time [t]. *)
Definition throttle_open (thr : option Z) (t : Z) : bool :=
  match thr with
  | Some u => u <=? t
  | None => true
  end.

(** What can happen to a listener: a registered camera emits
    [onRequestUpdate], the promise of a fetch settles (with what the REST
    client answered), or time just passes. *)
Inductive Event :=
| RequestUpdate (camera : nat)
| DevicesSettled (k : nat) (rc : RingRestClient)
| DingsSettled (k : nat) (rc : RingRestClient)
| Tick.

Section Pipelines.

Variable clientApi : string -> string.

(** The two sinks of a camera (ring-camera.ts). *)
Variable updateData : RingCamera -> CameraData -> RingCamera.
Variable processActiveDing : RingCamera -> ActiveDing -> RingCamera.

(** [cameraData.forEach(data => { const camera = camerasById[data.id];
    if (camera) camera.updateData(data) })] *)
Definition dispatchData (byId : gmap Z nat) (cams : list RingCamera)
    (d : CameraData) : list RingCamera :=
  match byId !! data_id d with
  | Some i =>
      match cams !! i with
      | Some camera => <[i := updateData camera d]> cams
      | None => cams
      end
  | None => cams
  end.

Definition dispatchDing (byId : gmap Z nat) (cams : list RingCamera)
    (a : ActiveDing) : list RingCamera :=
  match byId !! doorbot_id a with
  | Some i =>
      match cams !! i with
      | Some camera => <[i := processActiveDing camera a]> cams
      | None => cams
      end
  | None => cams
  end.

(** The body of the status [switchMap]. *)
Definition statusCycle : Async (option (list CameraData)) :=
  response ← catch_null (fetchRingDevices clientApi);
  mret (allCameras <$> response).

(** The body of the dings [switchMap]. *)
Definition dingsCycle : Async (option (list ActiveDing)) :=
  catch_null (fetchActiveDings clientApi).

(** A value reaches the merged [throttleTime(500)] and, if let through,
    [switchMap]. *)
Definition trigger (src : Source) (t : Z) (l : Listener) : Listener :=
  if throttle_open (mergedThrottle l) t then
    log (StatusFetch t (issued (status l)) src)
      (set_status (start_fetch (status l))
         (set_mergedThrottle (Some (t + 500)) l))
  else l.

(** A camera's [onRequestUpdate] emits: [camerasRequestUpdate$] has its own
    [throttleTime(500)]. *)
Definition requestUpdate (t : Z) (l : Listener) : Listener :=
  if throttle_open (requestThrottle l) t then
    trigger Manual t (set_requestThrottle (Some (t + 500)) l)
  else l.

(** The debounce timers that are due at [t] expire.  Each fetch is logged
    with the time its timer was due; when one step passes the due times of
    both pipelines, the log lists the status fetch first. *)
Definition fire_status (t : Z) (l : Listener) : Listener :=
  match timer (status l) with
  | Some due =>
      if due <=? t then
        trigger Poll due (set_status (set_pipeline_timer None (status l)) l)
      else l
  | None => l
  end.

Definition fire_dings (t : Z) (l : Listener) : Listener :=
  match timer (dings l) with
  | Some due =>
      if due <=? t then
        log (DingsFetch due (issued (dings l)))
          (set_dings (start_fetch (set_pipeline_timer None (dings l))) l)
      else l
  | None => l
  end.

Definition advance (t : Z) (l : Listener) : Listener :=
  let t := Z.max (clock l) t in
  fire_dings t (fire_status t (set_clock t l)).

(** The subscriber of the status pipeline. *)
Definition onCameraData (k : nat) (cameraData : option (list CameraData))
    (l : Listener) : Listener :=
  let rearmed :=
    set_pipeline_timer
      ((fun d => clock l + d) <$> statusDelay l) (status l) in
  let l := log (StatusDone (clock l) k) (set_status rearmed l) in
  match cameraData with
  | None => l
  | Some records =>
      set_registered
        (fold_left (dispatchData (camerasById l)) records (registered l)) l
  end.

(** The subscriber of the dings pipeline. *)
Definition onActiveDings (k : nat) (activeDings : option (list ActiveDing))
    (l : Listener) : Listener :=
  let rearmed :=
    set_pipeline_timer
      ((fun d => clock l + d) <$> dingsDelay l) (dings l) in
  let l := log (DingsDone (clock l) k) (set_dings rearmed l) in
  match activeDings with
  | None | Some [] => l
  | Some records =>
      set_registered
        (fold_left (dispatchDing (camerasById l)) records (registered l)) l
  end.

Definition devicesSettled (k : nat) (rc : RingRestClient) (l : Listener)
  : Listener :=
  if bool_decide (k ∈ inflight (status l)) then
    let awaited := bool_decide (current (status l) = Some k) in
    let l := set_status (settle_fetch k (status l)) l in
    match snd (statusCycle rc) with
    | Exited => halt l
    | Rejected => l
    | Resolved cameraData => if awaited then onCameraData k cameraData l else l
    end
  else l.

Definition dingsSettled (k : nat) (rc : RingRestClient) (l : Listener)
  : Listener :=
  if bool_decide (k ∈ inflight (dings l)) then
    let awaited := bool_decide (current (dings l) = Some k) in
    let l := set_dings (settle_fetch k (dings l)) l in
    match snd (dingsCycle rc) with
    | Exited => halt l
    | Rejected => l
    | Resolved activeDings => if awaited then onActiveDings k activeDings l else l
    end
  else l.

(** One event at time [t] (not before the present). *)
Definition step (l : Listener) (e : Z * Event) : Listener :=
  if halted l then l
  else
    let l := advance e.1 l in
    match e.2 with
    | RequestUpdate camera =>
        if bool_decide (camera < length (registered l))%nat
        then requestUpdate (clock l) l else l
    | DevicesSettled k rc => devicesSettled k rc l
    | DingsSettled k rc => dingsSettled k rc l
    | Tick => l
    end.

Definition run (l : Listener) (events : list (Z * Event)) : Listener :=
  fold_left step events l.

End Pipelines.

(** ** The listener by its debounce delays

    What [listenForCameraUpdates] sets up, given the delays its two
    [debounceTime] stages receive in milliseconds: [statusMs] is the value
    of [cameraStatusPollingSeconds * 1000] when that interval is truthy
    (250 for an interval of 0.25 s) and [None] when it is not; likewise
    [dingsMs].  A timer armed with a negative delay expires at once. *)
Definition listening (statusMs dingsMs : option Z) (cams : list RingCamera)
  : Listener :=
  let statusD := Z.max 0 <$> statusMs in
  let dingsD := Z.max 0 <$> dingsMs in
  {| clock := 0;
     registered := cams;
     camerasById := index_cameras 0 cams ∅;
     halted := false;
     requestThrottle := None;
     mergedThrottle := None;
     statusDelay := statusD;
     dingsDelay := dingsD;
     status := kicked_off statusD;
     dings := kicked_off dingsD;
     trace := [] |}.

(** ** Observations on logs and strings, used to state the properties *)

(** The fetches of the status pipeline in a log. *)
Definition is_status_fetch (o : Obs) : bool :=
  match o with
  | StatusFetch _ _ _ => true
  | _ => false
  end.

Definition status_fetches (tr : list Obs) : list Obs :=
  List.filter is_status_fetch tr.

Definition is_subscribe (e : Effect) : bool :=
  match e with
  | Subscribe _ => true
  | _ => false
  end.

Definition is_request (e : Effect) : bool :=
  match e with
  | Request _ => true
  | _ => false
  end.

(** The integers a JavaScript number holds exactly
    (up to [Number.MAX_SAFE_INTEGER]). *)
Definition safe_integer (n : Z) : Prop :=
  - 9007199254740991 <= n <= 9007199254740991.

(** The integer a string of decimal digits, with an optional minus sign,
    denotes; [None] for any other string. *)
Definition decimal_value (s : string) : option Z :=
  Z.of_int <$> NilZero.int_of_string s.

(** [frag] occurs in [s]. *)
Definition contains (frag s : string) : Prop :=
  exists pre post, s = pre +:+ frag +:+ post.

Fixpoint chars (s : string) : list ascii :=
  match s with
  | EmptyString => []
  | String c s => c :: chars s
  end.

(** ** Invariants of the running pipelines *)

(** Every fetch a poll started began at least [D] after the subscription
    and at least [D] after every completion logged before it. *)
Definition poll_spacing (D : Z) (tr : list Obs) : Prop :=
  forall pre t k post,
    tr = pre ++ StatusFetch t k Poll :: post ->
    D <= t /\ forall c k', StatusDone c k' ∈ pre -> c + D <= t.

Record polling_inv (D : Z) (l : Listener) : Prop := {
  polling_clock : 0 <= clock l;
  polling_delay : statusDelay l = Some D;
  polling_timer :
    forall due, timer (status l) = Some due ->
      D <= due /\ forall c k, StatusDone c k ∈ trace l -> c + D <= due;
  polling_done : forall c k, StatusDone c k ∈ trace l -> c <= clock l;
  polling_spacing : poll_spacing D (trace l)
}.


(** A throttle window opened at [t0] is still open: both stages are closed
    until [t0 + 500] and the status fetches logged are [fetches]. *)
Record in_window (t0 : Z) (fetches : list Obs) (l : Listener) : Prop := {
  window_clock : clock l < t0 + 500;
  window_request : requestThrottle l = Some (t0 + 500);
  window_merged : mergedThrottle l = Some (t0 + 500);
  window_fetches : status_fetches (trace l) = fetches
}.

(** Any two status fetches of a log are at least 500 ms apart. *)
Definition fetch_spacing (tr : list Obs) : Prop :=
  forall pre t1 k1 src1 post,
    tr = pre ++ StatusFetch t1 k1 src1 :: post ->
    forall t2 k2 src2, StatusFetch t2 k2 src2 ∈ post -> t1 + 500 <= t2.

Record rate_inv (l : Listener) : Prop := {
  rate_throttle :
    forall t k src, StatusFetch t k src ∈ trace l ->
      exists u, mergedThrottle l = Some u /\ t + 500 <= u;
  rate_spacing : fetch_spacing (trace l)
}.

(** Every dings fetch began at least [D] after the subscription and at
    least [D] after every dings completion logged before it. *)
Definition dings_spacing (D : Z) (tr : list Obs) : Prop :=
  forall pre t k post,
    tr = pre ++ DingsFetch t k :: post ->
    D <= t /\ forall c k', DingsDone c k' ∈ pre -> c + D <= t.

Record dings_polling_inv (D : Z) (l : Listener) : Prop := {
  dings_polling_clock : 0 <= clock l;
  dings_polling_delay : dingsDelay l = Some D;
  dings_polling_timer :
    forall due, timer (dings l) = Some due ->
      D <= due /\ forall c k, DingsDone c k ∈ trace l -> c + D <= due;
  dings_polling_done : forall c k, DingsDone c k ∈ trace l -> c <= clock l;
  dings_polling_spacing : dings_spacing D (trace l)
}.


(** Without a status interval, nothing is ever armed or polled. *)
Record no_status_polling (l : Listener) : Prop := {
  no_status_delay : statusDelay l = None;
  no_status_timer : timer (status l) = None;
  no_status_poll : forall t k, StatusFetch t k Poll ∉ trace l
}.

Record no_dings_polling (l : Listener) : Prop := {
  no_dings_delay : dingsDelay l = None;
  no_dings_timer : timer (dings l) = None;
  no_dings_fetch : forall t k, DingsFetch t k ∉ trace l
}.

(** The polling chains are unbroken: while the process runs, a status
    fetch is awaited or the status timer is pending (and due no earlier
    than the merged throttle reopens); a dings fetch is awaited or the
    dings timer is pending. *)
Record chain_inv (l : Listener) : Prop := {
  chain_throttle :
    forall u, mergedThrottle l = Some u -> u <= clock l + 500;
  chain_status :
    forall D, statusDelay l = Some D -> 500 <= D -> halted l = false ->
      is_Some (current (status l))
      \/ exists due,
           timer (status l) = Some due
           /\ forall u, mergedThrottle l = Some u -> u <= due;
  chain_dings :
    forall D, dingsDelay l = Some D ->
      is_Some (current (dings l)) \/ is_Some (timer (dings l))
}.

(** A completion is logged only for the fetch that was the last one
    started before it. *)
Definition done_is_latest (tr : list Obs) : Prop :=
  forall pre c k post,
    tr = pre ++ StatusDone c k :: post ->
    forall t k' src, StatusFetch t k' src ∈ pre -> (k' <= k)%nat.

Record latest_inv (l : Listener) : Prop := {
  latest_issued :
    forall t k src, StatusFetch t k src ∈ trace l ->
      (k < issued (status l))%nat;
  latest_current :
    forall k, current (status l) = Some k -> S k = issued (status l);
  latest_done : done_is_latest (trace l)
}.

(** ** Sample values *)

Module Sample.

Definition clientApi (path : string) : string :=
  "https://api.ring.com/clients_api/" +:+ path.

Definition updateData (c : RingCamera) (d : CameraData) : RingCamera :=
  {| id := id c; data := d; isDoorbot := isDoorbot c; received := received c |}.

Definition processActiveDing (c : RingCamera) (a : ActiveDing) : RingCamera :=
  {| id := id c; data := data c; isDoorbot := isDoorbot c;
     received := received c ++ [a] |}.

Definition front : CameraData :=
  {| data_ref := 0; data_id := 7; data_location_id := "L1" |}.
(** The same doorbot once more, as the entry of [authorized_doorbots]. *)
Definition front_authorized : CameraData :=
  {| data_ref := 1; data_id := 7; data_location_id := "L1" |}.
Definition garden : CameraData :=
  {| data_ref := 2; data_id := 9; data_location_id := "L2" |}.
(** A camera the registry has never seen. *)
Definition stranger : CameraData :=
  {| data_ref := 3; data_id := 11; data_location_id := "L1" |}.

Definition snapshot : DevicesResponse :=
  {| r_doorbots := [front];
     r_authorized_doorbots := [];
     r_stickup_cams := [garden];
     r_base_stations := [];
     r_beams_bridges := [ {| bridge_location_id := "L2" |} ] |}.

Definition snapshot_twice : DevicesResponse :=
  {| r_doorbots := [front];
     r_authorized_doorbots := [front_authorized];
     r_stickup_cams := [];
     r_base_stations := [];
     r_beams_bridges := [] |}.

Definition answers (r : DevicesResponse) (uses2fa : bool)
    (token : option string) : RingRestClient :=
  {| ring_devices := Some r;
     user_locations := Some [ {| location_id := "L1" |};
                              {| location_id := "L2" |} ];
     active_dings := Some [];
     using2fa := uses2fa;
     refreshToken := token |}.

Definition online : RingRestClient := answers snapshot false None.

Definition offline : RingRestClient :=
  {| ring_devices := None; user_locations := None; active_dings := None;
     using2fa := false; refreshToken := None |}.

Definition only_L1 : RingAlarmOptions :=
  {| locationIds := Some ["L1"];
     cameraStatusPollingSeconds := None;
     cameraDingsPollingSeconds := None |}.

Definition polling (status_s dings_s : option Z) : RingAlarmOptions :=
  {| locationIds := None;
     cameraStatusPollingSeconds := status_s;
     cameraDingsPollingSeconds := dings_s |}.

Definition two_cameras : list RingCamera :=
  [newRingCamera front true; newRingCamera garden false].

End Sample.

(** * Properties *)

(** ** fetchRingDevices *)

(** The three ways [fetchRingDevices] can end, by what the client answers. *)
Lemma fetchRingDevices_cases clientApi rc :
  match ring_devices rc with
  | None =>
      fetchRingDevices clientApi rc
      = ([Request (clientApi "ring_devices")], Rejected)
  | Some r =>
      if using2fa rc && truthy_string (refreshToken rc) then
        exists msg1 msg2,
          fetchRingDevices clientApi rc
          = ([Request (clientApi "ring_devices");
              ConsoleError msg1; ConsoleError msg2], Exited)
      else
        fetchRingDevices clientApi rc
        = ([Request (clientApi "ring_devices")],
           Resolved
             {| doorbots := r_doorbots r;
                authorizedDoorbots := r_authorized_doorbots r;
                stickupCams := r_stickup_cams r;
                allCameras :=
                  r_doorbots r ++ r_stickup_cams r ++ r_authorized_doorbots r;
                baseStations := r_base_stations r;
                beamBridges := r_beams_bridges r |})
  end.
Proof.
  unfold fetchRingDevices, request, client, console_error, effect,
    process_exit, mbind, async_bind, mret, async_ret.
  destruct (ring_devices rc) as [r|]; [|done].
  destruct (using2fa rc && truthy_string (refreshToken rc)); simpl; eauto.
Qed.

Lemma fetchAndBuildLocations_unfold clientApi options rc :
  fetchAndBuildLocations clientApi options rc =
  match user_locations rc with
  | None =>
      ([Request "https://app.ring.com/rhq/v1/devices/v1/locations"], Rejected)
  | Some raw =>
      match fetchRingDevices clientApi rc with
      | (e, Resolved d) =>
          (Request "https://app.ring.com/rhq/v1/devices/v1/locations"
             :: e ++ fst (listenForCameraUpdates options (buildCameras d) rc),
           Resolved (buildLocations options raw d (buildCameras d)))
      | (e, Rejected) =>
          (Request "https://app.ring.com/rhq/v1/devices/v1/locations" :: e,
           Rejected)
      | (e, Exited) =>
          (Request "https://app.ring.com/rhq/v1/devices/v1/locations" :: e,
           Exited)
      end
  end.
Proof.
  unfold fetchAndBuildLocations, fetchRawLocations, request.
  unfold mbind at 1. unfold async_bind at 1.
  destruct (user_locations rc) as [raw|]; [|done].
  unfold mbind at 1. unfold async_bind at 1.
  destruct (fetchRingDevices clientApi rc) as [e [d| |]]; [|done|done].
  unfold listenForCameraUpdates, effect, mbind, async_bind, mret, async_ret.
  destruct (buildCameras d); simpl; by rewrite ?app_nil_r.
Qed.

(** C1 (as amended).  [fetchRingDevices] ends the process exactly when the
    snapshot request succeeded, the client reports two-factor
    authentication and a non-empty refresh token IS available; it then has
    written its two diagnostics and returned nothing.  It rejects exactly
    when the request fails and resolves in every other case.  The directory
    build exits exactly when, in addition, the location request succeeded,
    and it has then registered no camera. *)
Theorem fetchRingDevices_exits_iff_2fa_with_token clientApi options rc :
  (snd (fetchRingDevices clientApi rc) = Exited <->
     is_Some (ring_devices rc) /\ using2fa rc = true
     /\ truthy_string (refreshToken rc) = true)
  /\ (snd (fetchRingDevices clientApi rc) = Rejected <->
        ring_devices rc = None)
  /\ (snd (fetchRingDevices clientApi rc) = Exited ->
        exists msg1 msg2,
          fst (fetchRingDevices clientApi rc)
          = [Request (clientApi "ring_devices");
             ConsoleError msg1; ConsoleError msg2])
  /\ (snd (fetchAndBuildLocations clientApi options rc) = Exited <->
        is_Some (user_locations rc) /\ is_Some (ring_devices rc)
        /\ using2fa rc = true /\ truthy_string (refreshToken rc) = true)
  /\ (snd (fetchAndBuildLocations clientApi options rc) = Exited ->
        List.filter is_subscribe
          (fst (fetchAndBuildLocations clientApi options rc)) = []).
Proof.
  pose proof (fetchRingDevices_cases clientApi rc) as Hc.
  rewrite fetchAndBuildLocations_unfold.
  destruct (ring_devices rc) as [r|] eqn:Hr.
  - destruct (using2fa rc) eqn:H2, (truthy_string (refreshToken rc)) eqn:Ht;
      simpl in Hc; try destruct Hc as (m1 & m2 & Hc); rewrite Hc; simpl.
    all: destruct (user_locations rc) as [raw|]; simpl.
    all: repeat split; try done; eauto.
    all: try (intros (? & ? & ? & ?); done).
    all: try (intros (? & ? & ?); done).
    all: try (intros ([? ?] & ?); done).
  - rewrite Hc. simpl. destruct (user_locations rc) as [raw|]; simpl.
    all: repeat split; try done.
    all: try (intros ([? ?] & ?); done).
    all: try (intros (? & [? ?] & ?); done).
Qed.

(** C1, as stated, fails: with two-factor authentication and no refresh
    token the code returns normally, and with a token it exits. *)
Lemma fetchRingDevices_2fa_without_token_returns :
  using2fa (Sample.answers Sample.snapshot true None) = true
  /\ refreshToken (Sample.answers Sample.snapshot true None) = None
  /\ snd (fetchRingDevices Sample.clientApi
            (Sample.answers Sample.snapshot true None)) <> Exited
  /\ (exists locs,
        snd (fetchAndBuildLocations Sample.clientApi Sample.only_L1
               (Sample.answers Sample.snapshot true None)) = Resolved locs)
  /\ snd (fetchRingDevices Sample.clientApi
            (Sample.answers Sample.snapshot true (Some "token"))) = Exited.
Proof.
  repeat split; try done.
  eexists. vm_compute. reflexivity.
Qed.

(** ** The directory builder *)

Lemma buildCameras_data d : map data (buildCameras d) = allCameras d.
Proof.
  unfold buildCameras. rewrite map_map. simpl. apply map_id.
Qed.

Lemma fetchRingDevices_resolved clientApi rc d :
  snd (fetchRingDevices clientApi rc) = Resolved d ->
  exists r,
    ring_devices rc = Some r
    /\ d = {| doorbots := r_doorbots r;
              authorizedDoorbots := r_authorized_doorbots r;
              stickupCams := r_stickup_cams r;
              allCameras :=
                r_doorbots r ++ r_stickup_cams r ++ r_authorized_doorbots r;
              baseStations := r_base_stations r;
              beamBridges := r_beams_bridges r |}.
Proof.
  pose proof (fetchRingDevices_cases clientApi rc) as Hc.
  destruct (ring_devices rc) as [r|]; [|by rewrite Hc].
  destruct (using2fa rc && truthy_string (refreshToken rc)).
  - destruct Hc as (m1 & m2 & ->). done.
  - rewrite Hc. simpl. intros [= <-]. eauto.
Qed.

(** C2 (as amended).  The camera set holds one camera per entry of the
    concatenation doorbots, stickup_cams, authorized_doorbots, in that
    order and with that entry as its data: nothing is deduplicated. *)
Theorem buildCameras_one_per_entry clientApi rc d :
  snd (fetchRingDevices clientApi rc) = Resolved d ->
  exists r,
    ring_devices rc = Some r
    /\ map data (buildCameras d)
       = r_doorbots r ++ r_stickup_cams r ++ r_authorized_doorbots r
    /\ length (buildCameras d)
       = (length (r_doorbots r) + length (r_stickup_cams r)
          + length (r_authorized_doorbots r))%nat.
Proof.
  intros Hd. destruct (fetchRingDevices_resolved _ _ _ Hd) as (r & Hr & ->).
  exists r. split; [done|]. split.
  - by rewrite buildCameras_data.
  - rewrite <- (length_map data), buildCameras_data. simpl.
    rewrite !length_app. lia.
Qed.

Lemma buildCameras_one_per_entry_witness :
  exists r,
    ring_devices (Sample.answers Sample.snapshot_twice false None) = Some r
    /\ map data
         (buildCameras
            {| doorbots := [Sample.front];
               authorizedDoorbots := [Sample.front_authorized];
               stickupCams := [];
               allCameras := [Sample.front; Sample.front_authorized];
               baseStations := [];
               beamBridges := [] |})
       = r_doorbots r ++ r_stickup_cams r ++ r_authorized_doorbots r
    /\ length
         (buildCameras
            {| doorbots := [Sample.front];
               authorizedDoorbots := [Sample.front_authorized];
               stickupCams := [];
               allCameras := [Sample.front; Sample.front_authorized];
               baseStations := [];
               beamBridges := [] |})
       = (length (r_doorbots r) + length (r_stickup_cams r)
          + length (r_authorized_doorbots r))%nat.
Proof.
  apply (buildCameras_one_per_entry Sample.clientApi
           (Sample.answers Sample.snapshot_twice false None)).
  reflexivity.
Defined.

(** C2, as stated, fails: a doorbot listed in both [doorbots] and
    [authorized_doorbots] is built twice. *)
Lemma doorbot_in_both_lists_built_twice :
  exists d,
    snd (fetchRingDevices Sample.clientApi
           (Sample.answers Sample.snapshot_twice false None)) = Resolved d
    /\ 7 ∈ map data_id (r_doorbots Sample.snapshot_twice)
    /\ 7 ∈ map data_id (r_authorized_doorbots Sample.snapshot_twice)
    /\ length (filter (fun c => id c = 7) (buildCameras d)) = 2%nat.
Proof.
  eexists. split; [reflexivity|].
  split; [apply list_elem_of_In; simpl; tauto|].
  split; [apply list_elem_of_In; simpl; tauto|].
  reflexivity.
Qed.

Lemma includes_string_elem_of ids s :
  includes_string ids s = true <-> s ∈ ids.
Proof.
  unfold includes_string. rewrite existsb_exists, list_elem_of_In.
  split.
  - intros (x & Hin & Heq). apply String.eqb_eq in Heq. by subst.
  - intros Hin. exists s. split; [done|]. apply String.eqb_refl.
Qed.

Lemma filter_keepLocation options (raw : list UserLocation) :
  filter (fun location => keepLocation options location = true) raw
  = match locationIds options with
    | Some ids => filter (fun location => location_id location ∈ ids) raw
    | None => raw
    end.
Proof.
  unfold keepLocation. destruct (locationIds options) as [ids|].
  - apply list_filter_iff. intros x. apply includes_string_elem_of.
  - induction raw as [|x raw IH]; [done|].
    rewrite filter_cons_True by done. by rewrite IH.
Qed.

(** C9.  With an allow-list, the directory keeps exactly the raw locations
    whose [location_id] is in the list (in their order); without one
    ([locationIds] absent or not an array) it keeps every raw location.
    Each location built owns exactly the cameras whose [location_id] equals
    its own. *)
Theorem fetchAndBuildLocations_allow_list clientApi options rc locs :
  snd (fetchAndBuildLocations clientApi options rc) = Resolved locs ->
  exists raw d,
    user_locations rc = Some raw
    /\ snd (fetchRingDevices clientApi rc) = Resolved d
    /\ map locationDetails locs
       = match locationIds options with
         | Some ids => filter (fun location => location_id location ∈ ids) raw
         | None => raw
         end
    /\ Forall
         (fun location =>
            cameras location
            = filter
                (fun camera =>
                   data_location_id (data camera)
                   = location_id (locationDetails location))
                (buildCameras d))
         locs.
Proof.
  rewrite fetchAndBuildLocations_unfold.
  destruct (user_locations rc) as [raw|]; [|done].
  destruct (fetchRingDevices clientApi rc) as [e [d| |]]; [|done|done].
  simpl. intros [= <-]. exists raw, d. repeat split.
  - unfold buildLocations. rewrite map_map. simpl. rewrite map_id.
    apply filter_keepLocation.
  - unfold buildLocations. apply Forall_forall. intros location Hin.
    apply list_elem_of_In, in_map_iff in Hin.
    destruct Hin as (x & <- & _). done.
Qed.

Lemma fetchAndBuildLocations_allow_list_witness :
  exists raw d,
    user_locations Sample.online = Some raw
    /\ snd (fetchRingDevices Sample.clientApi Sample.online) = Resolved d
    /\ map locationDetails
         [ {| locationDetails := {| location_id := "L1" |};
              cameras := [newRingCamera Sample.front true];
              hasHubs := false |} ]
       = match locationIds Sample.only_L1 with
         | Some ids => filter (fun location => location_id location ∈ ids) raw
         | None => raw
         end
    /\ Forall
         (fun location =>
            cameras location
            = filter
                (fun camera =>
                   data_location_id (data camera)
                   = location_id (locationDetails location))
                (buildCameras d))
         [ {| locationDetails := {| location_id := "L1" |};
              cameras := [newRingCamera Sample.front true];
              hasHubs := false |} ].
Proof.
  apply (fetchAndBuildLocations_allow_list Sample.clientApi Sample.only_L1
           Sample.online).
  vm_compute. reflexivity.
Defined.

(** ** getLocations *)

(** C4 (as amended).  [getLocations] hands out the promise stored at
    construction: a call has no effect of its own (no request, nothing
    registered) and calling again gives the same result, so constructing the
    object and calling [getLocations] any number of times runs the build
    once.  Only [fetchAndBuildLocations] itself runs the build again, with
    all its requests and its registration. *)
Theorem getLocations_returns_stored_promise clientApi options api rc :
  getLocations api rc = ([], locations api)
  /\ (getLocations api ≫= fun _ => getLocations api) rc = getLocations api rc
  /\ (newRingApi clientApi options ≫= getLocations) rc
     = fetchAndBuildLocations clientApi options rc
  /\ (newRingApi clientApi options
        ≫= fun api' => getLocations api' ≫= fun _ => getLocations api') rc
     = fetchAndBuildLocations clientApi options rc
  /\ fst ((fetchAndBuildLocations clientApi options
             ≫= fun _ => fetchAndBuildLocations clientApi options) rc)
     = match snd (fetchAndBuildLocations clientApi options rc) with
       | Resolved _ =>
           fst (fetchAndBuildLocations clientApi options rc)
             ++ fst (fetchAndBuildLocations clientApi options rc)
       | _ => fst (fetchAndBuildLocations clientApi options rc)
       end.
Proof.
  repeat split.
  - unfold getLocations, await, mbind, async_bind.
    by destruct (locations api).
  - unfold newRingApi, getLocations, await, mbind, async_bind.
    destruct (fetchAndBuildLocations clientApi options rc) as [e [locs| |]];
      simpl; by rewrite ?app_nil_r.
  - unfold newRingApi, getLocations, await, mbind, async_bind.
    destruct (fetchAndBuildLocations clientApi options rc) as [e [locs| |]];
      simpl; by rewrite ?app_nil_r.
  - unfold mbind, async_bind.
    destruct (fetchAndBuildLocations clientApi options rc) as [e [locs| |]];
      done.
Qed.

(** C4, as stated, fails: after construction, a call of [getLocations]
    issues no request and registers nothing, where a build that resolves
    issues two requests and registers the cameras. *)
Lemma getLocations_does_not_rebuild :
  (exists api,
     snd (newRingApi Sample.clientApi Sample.only_L1 Sample.online)
     = Resolved api
     /\ fst (getLocations api Sample.online) = [])
  /\ length
       (List.filter is_request
          (fst (fetchAndBuildLocations Sample.clientApi Sample.only_L1
                  Sample.online))) = 2%nat
  /\ length
       (List.filter is_subscribe
          (fst (fetchAndBuildLocations Sample.clientApi Sample.only_L1
                  Sample.online))) = 1%nat
  /\ length
       (List.filter is_subscribe
          (fst ((newRingApi Sample.clientApi Sample.only_L1
                   ≫= fun api => getLocations api
                   ≫= fun _ => getLocations api) Sample.online))) = 1%nat.
Proof.
  split; [eexists; split; reflexivity|].
  repeat split; vm_compute; reflexivity.
Qed.

(** ** getHistory *)

Lemma chars_app a b : chars (a +:+ b) = chars a ++ chars b.
Proof. induction a as [|c a IH]; simpl; [done|by rewrite IH]. Qed.

Lemma contains_chars frag s c :
  contains frag s -> c ∈ chars frag -> c ∈ chars s.
Proof.
  intros (pre & post & ->) Hc. rewrite !chars_app.
  apply elem_of_app. right. apply elem_of_app. by left.
Qed.

Lemma string_of_uint_digits (d : Decimal.uint) c :
  c ∈ chars (NilEmpty.string_of_uint d) ->
  (48 <= nat_of_ascii c <= 57)%nat.
Proof.
  induction d; simpl; intros Hc;
    try (apply elem_of_nil in Hc; done);
    apply elem_of_cons in Hc; destruct Hc as [-> | Hc]; auto;
    vm_compute; lia.
Qed.

Lemma string_of_uint_nilzero_digits (d : Decimal.uint) c :
  c ∈ chars (NilZero.string_of_uint d) ->
  (48 <= nat_of_ascii c <= 57)%nat.
Proof.
  unfold NilZero.string_of_uint.
  destruct d; try exact (string_of_uint_digits _ c).
  simpl. intros Hc. apply list_elem_of_singleton in Hc. subst c.
  vm_compute. lia.
Qed.

Lemma number_to_string_chars n c :
  c ∈ chars (number_to_string n) ->
  c = "-"%char \/ (48 <= nat_of_ascii c <= 57)%nat.
Proof.
  unfold number_to_string, NilZero.string_of_int.
  destruct (Z.to_int n) as [d|d].
  - intros Hc. right. by apply string_of_uint_nilzero_digits in Hc.
  - simpl. intros Hc. apply elem_of_cons in Hc. destruct Hc as [-> | Hc];
      [by left|right].
    by apply string_of_uint_nilzero_digits in Hc.
Qed.

Lemma decimal_value_number_to_string n :
  decimal_value (number_to_string n) = Some n.
Proof.
  unfold decimal_value, number_to_string.
  rewrite NilZero.isi.
  - simpl. by rewrite DecimalZ.of_to.
  - destruct n as [|q|q]; simpl; try discriminate.
    intros [= Hq]. by apply DecimalPos.Unsigned.to_uint_nonnil in Hq.
  - destruct n as [|q|q]; simpl; try discriminate.
    intros [= Hq]. by apply DecimalPos.Unsigned.to_uint_nonnil in Hq.
Qed.

(** C10.  An absent [limit] is 10 and an absent [favoritesOnly] is false:
    without arguments the path is doorbots/history?limit=10.  For a limit
    that is an integer a number holds exactly, the one request goes to
    [clientApi] of a path that is doorbots/history?limit= followed by the
    decimal digits of the limit (they read back as the limit), followed by
    &favorites=1 exactly when [favoritesOnly] is true; that fragment occurs
    in the path if and only if [favoritesOnly] is true. *)
Theorem getHistory_path clientApi A limit favoritesOnly
    (answer : RingRestClient -> option A) rc :
  safe_integer (default 10 limit) ->
  fst (getHistory clientApi limit favoritesOnly answer rc)
  = [Request (clientApi (historyPath limit favoritesOnly))]
  /\ historyPath None None = "doorbots/history?limit=10"
  /\ historyPath None favoritesOnly = historyPath (Some 10) favoritesOnly
  /\ historyPath limit None = historyPath limit (Some false)
  /\ historyPath limit favoritesOnly
     = "doorbots/history?limit=" +:+ number_to_string (default 10 limit)
         +:+ (if default false favoritesOnly then "&favorites=1"
              else EmptyString)
  /\ decimal_value (number_to_string (default 10 limit))
     = Some (default 10 limit)
  /\ (contains "&favorites=1" (historyPath limit favoritesOnly)
      <-> default false favoritesOnly = true)
  /\ contains (number_to_string (default 10 limit))
       (historyPath limit favoritesOnly).
Proof.
  intros _.
  split; [done|]. split; [done|]. split; [done|]. split; [done|].
  split; [done|]. split; [apply decimal_value_number_to_string|].
  split; [split|].
  - intros Hc. destruct (default false favoritesOnly) eqn:Hf; [done|].
    exfalso.
    assert (Hamp : "&"%char ∈ chars (historyPath limit favoritesOnly)).
    { eapply contains_chars; [exact Hc|]. simpl. apply elem_of_cons. by left. }
    unfold historyPath in Hamp. rewrite Hf in Hamp.
    rewrite !chars_app in Hamp. simpl in Hamp. rewrite app_nil_r in Hamp.
    repeat (apply elem_of_cons in Hamp; destruct Hamp as [Hamp|Hamp];
            [discriminate Hamp|]).
    apply number_to_string_chars in Hamp.
    destruct Hamp as [Hamp|Hamp]; [discriminate Hamp|vm_compute in Hamp; lia].
  - intros Hf. unfold historyPath. rewrite Hf.
    exists ("doorbots/history?limit=" +:+ number_to_string (default 10 limit)),
      EmptyString.
    done.
  - exists "doorbots/history?limit=",
      (if default false favoritesOnly then "&favorites=1" else EmptyString).
    done.
Qed.

Lemma getHistory_path_witness :
  fst (getHistory Sample.clientApi (Some 25) (Some true)
         (fun _ : RingRestClient => Some tt) Sample.online)
  = [Request
       "https://api.ring.com/clients_api/doorbots/history?limit=25&favorites=1"]
  /\ historyPath None None = "doorbots/history?limit=10"
  /\ historyPath None (Some true) = "doorbots/history?limit=10&favorites=1"
  /\ historyPath (Some 25) None = "doorbots/history?limit=25"
  /\ historyPath (Some 25) (Some true)
     = "doorbots/history?limit=25&favorites=1"
  /\ decimal_value "25" = Some 25
  /\ (contains "&favorites=1" "doorbots/history?limit=25&favorites=1"
      <-> true = true)
  /\ contains "25" "doorbots/history?limit=25&favorites=1".
Proof.
  apply (getHistory_path Sample.clientApi unit (Some 25) (Some true)
           (fun _ : RingRestClient => Some tt) Sample.online).
  unfold safe_integer. simpl. lia.
Defined.

(** ** Dispatch by id *)

Lemma index_cameras_lookup cs : forall i byId k,
  index_cameras i cs byId !! k = None <->
  byId !! k = None /\ forall camera, camera ∈ cs -> id camera ≠ k.
Proof.
  induction cs as [|c cs IH]; intros i byId k; simpl.
  - split; [intros H; split; [done|]|tauto].
    intros camera Hin. by apply elem_of_nil in Hin.
  - rewrite IH. split.
    + intros [Hk Hcs].
      destruct (decide (id c = k)) as [Heq|Hne].
      * subst k. by rewrite lookup_insert_eq in Hk.
      * rewrite lookup_insert_ne in Hk by done. split; [done|].
        intros camera Hin. apply elem_of_cons in Hin.
        destruct Hin as [->|Hin]; auto.
    + intros [Hk Hcs]. split.
      * rewrite lookup_insert_ne; [done|].
        apply Hcs. apply elem_of_cons. by left.
      * intros camera Hin. apply Hcs. apply elem_of_cons. by right.
Qed.

Section Dispatch.

Variable updateData : RingCamera -> CameraData -> RingCamera.
Variable processActiveDing : RingCamera -> ActiveDing -> RingCamera.




End Dispatch.


(** ** The pipelines: running and invariants *)

Lemma dingsCycle_resolved clientApi rc :
  exists r, snd (dingsCycle clientApi rc) = Resolved r.
Proof.
  unfold dingsCycle, catch_null, fetchActiveDings, request. simpl.
  destruct (active_dings rc); simpl; eauto.
Qed.



Lemma elem_of_snoc_done (tr : list Obs) o c k :
  StatusDone c k ∈ tr ++ [o] <-> StatusDone c k ∈ tr \/ o = StatusDone c k.
Proof.
  rewrite elem_of_app, list_elem_of_singleton. split; intros [H|H]; auto.
Qed.

Lemma poll_spacing_snoc D (tr : list Obs) o :
  poll_spacing D tr ->
  (forall t k, o = StatusFetch t k Poll ->
     D <= t /\ forall c k', StatusDone c k' ∈ tr -> c + D <= t) ->
  poll_spacing D (tr ++ [o]).
Proof.
  intros Htr Ho pre t k post Heq.
  destruct post as [|y post _] using rev_ind.
  - apply app_inj_tail in Heq. destruct Heq as [<- ->].
    exact (Ho t k eq_refl).
  - rewrite app_comm_cons, app_assoc in Heq.
    apply app_inj_tail in Heq. destruct Heq as [-> _].
    by eapply Htr.
Qed.

Section Running.

Variable clientApi : string -> string.
Variable updateData : RingCamera -> CameraData -> RingCamera.
Variable processActiveDing : RingCamera -> ActiveDing -> RingCamera.

Abbreviation step_ := (step clientApi updateData processActiveDing).
Abbreviation run_ := (run clientApi updateData processActiveDing).

Lemma run_cons l e events : run_ l (e :: events) = run_ (step_ l e) events.
Proof. done. Qed.

(** What one step is made of, for a listener that has not halted. *)
Lemma step_running l t ev :
  halted l = false ->
  step_ l (t, ev)
  = let l' := advance t l in
    match ev with
    | RequestUpdate camera =>
        if bool_decide (camera < length (registered l'))%nat
        then requestUpdate (clock l') l' else l'
    | DevicesSettled k rc => devicesSettled clientApi updateData k rc l'
    | DingsSettled k rc => dingsSettled clientApi processActiveDing k rc l'
    | Tick => l'
    end.
Proof.
  intros Hh. unfold step. by rewrite Hh.
Qed.

(** *** [pipelines_inv] is kept by every operation *)













(** *** [polling_inv] is kept by every operation *)

Lemma polling_inv_set_clock D t l :
  clock l <= t -> polling_inv D l -> polling_inv D (set_clock t l).
Proof.
  intros Ht [Hc Hd Ht' Hdone Hsp]. constructor; simpl; auto; [lia|].
  intros c k Hin. apply Hdone in Hin. lia.
Qed.

Lemma polling_inv_trigger D src t l :
  (src = Poll ->
   D <= t /\ forall c k, StatusDone c k ∈ trace l -> c + D <= t) ->
  polling_inv D l -> polling_inv D (trigger src t l).
Proof.
  intros Hsrc Hinv. unfold trigger.
  destruct (throttle_open (mergedThrottle l) t); [|done].
  destruct Hinv as [Hc Hd Ht Hdone Hsp]. constructor; simpl; auto.
  - intros due Hdue. destruct (Ht due Hdue) as [HD Hall]. split; [done|].
    intros c k Hin. apply elem_of_snoc_done in Hin.
    destruct Hin as [Hin|Hin]; [eauto|done].
  - intros c k Hin. apply elem_of_snoc_done in Hin.
    destruct Hin as [Hin|Hin]; [eauto|done].
  - apply poll_spacing_snoc; [done|]. intros t' k [= -> _ ->]. auto.
Qed.

Lemma polling_inv_fire_status D t l :
  polling_inv D l -> polling_inv D (fire_status t l).
Proof.
  intros Hinv. unfold fire_status.
  destruct (timer (status l)) as [due|] eqn:Hdue; [|done].
  destruct (due <=? t); [|done].
  destruct Hinv as [Hc Hd Ht Hdone Hsp].
  apply polling_inv_trigger; [intros _; by apply Ht|].
  by constructor.
Qed.

Lemma polling_inv_fire_dings D t l :
  polling_inv D l -> polling_inv D (fire_dings t l).
Proof.
  intros Hinv. unfold fire_dings.
  destruct (timer (dings l)) as [due|]; [|done].
  destruct (due <=? t); [|done].
  destruct Hinv as [Hc Hd Ht Hdone Hsp]. constructor; simpl; auto.
  - intros due' Hdue. destruct (Ht due' Hdue) as [HD Hall]. split; [done|].
    intros c k Hin. apply elem_of_snoc_done in Hin.
    destruct Hin as [Hin|Hin]; [eauto|done].
  - intros c k Hin. apply elem_of_snoc_done in Hin.
    destruct Hin as [Hin|Hin]; [eauto|done].
  - apply poll_spacing_snoc; [done|]. intros t' k [=].
Qed.

Lemma polling_inv_advance D t l :
  polling_inv D l -> polling_inv D (advance t l).
Proof.
  intros Hinv. unfold advance.
  apply polling_inv_fire_dings, polling_inv_fire_status.
  apply polling_inv_set_clock; [lia|done].
Qed.

Lemma polling_inv_requestUpdate D t l :
  polling_inv D l -> polling_inv D (requestUpdate t l).
Proof.
  intros Hinv. unfold requestUpdate.
  destruct (throttle_open (requestThrottle l) t); [|done].
  apply polling_inv_trigger; [done|].
  destruct Hinv as [Hc Hd Ht Hdone Hsp]. by constructor.
Qed.

Lemma polling_inv_devicesSettled D k rc l :
  0 <= D ->
  polling_inv D l ->
  polling_inv D (devicesSettled clientApi updateData k rc l).
Proof.
  intros HD Hinv. unfold devicesSettled.
  case_bool_decide as Hin; [|done].
  destruct Hinv as [Hc Hd Ht Hdone Hsp].
  destruct (snd (statusCycle clientApi rc)) as [cameraData| |];
    [|by constructor|by constructor].
  case_bool_decide as Hcur; [|by constructor].
  assert (Hrearmed : forall c k',
    StatusDone c k' ∈ trace l ++ [StatusDone (clock l) k] -> c <= clock l).
  { intros c k' Hi. apply elem_of_snoc_done in Hi.
    destruct Hi as [Hi|[= -> _]]; [eauto|lia]. }
  unfold onCameraData. simpl. rewrite Hd. simpl.
  destruct cameraData; constructor; simpl; auto.
  all: try (intros due [= <-]; split; [lia|];
            intros c k' Hi; apply Hrearmed in Hi; lia).
  all: apply poll_spacing_snoc; [done|]; intros t' k' [=].
Qed.

Lemma polling_inv_dingsSettled D k rc l :
  polling_inv D l ->
  polling_inv D (dingsSettled clientApi processActiveDing k rc l).
Proof.
  intros Hinv. unfold dingsSettled.
  case_bool_decide as Hin; [|done].
  destruct Hinv as [Hc Hd Ht Hdone Hsp].
  destruct (snd (dingsCycle clientApi rc)) as [activeDings| |];
    [|by constructor|by constructor].
  case_bool_decide as Hcur; [|by constructor].
  unfold onActiveDings.
  destruct activeDings as [[|a records]|]; constructor; simpl; auto.
  all: try (intros due' Hdue; destruct (Ht due' Hdue) as [HD Hall];
            split; [done|]; intros c k' Hi; apply elem_of_snoc_done in Hi;
            destruct Hi as [Hi|Hi]; [eauto|done]).
  all: try (intros c k' Hi; apply elem_of_snoc_done in Hi;
            destruct Hi as [Hi|Hi]; [eauto|done]).
  all: apply poll_spacing_snoc; [done|]; intros t' k' [=].
Qed.

Lemma polling_inv_step D l e :
  0 <= D -> polling_inv D l -> polling_inv D (step_ l e).
Proof.
  intros HD Hinv. destruct e as [t ev].
  destruct (halted l) eqn:Hh; [unfold step; by rewrite Hh|].
  rewrite step_running by done. cbv zeta.
  pose proof (polling_inv_advance D t l Hinv) as Ha.
  destruct ev as [camera|k rc|k rc|].
  - case_bool_decide; [by apply polling_inv_requestUpdate|done].
  - by apply polling_inv_devicesSettled.
  - by apply polling_inv_dingsSettled.
  - done.
Qed.

Lemma polling_inv_run D l events :
  0 <= D -> polling_inv D l -> polling_inv D (run_ l events).
Proof.
  intros HD. revert l.
  induction events as [|e events IH]; intros l Hinv; [done|].
  rewrite run_cons. by apply IH, polling_inv_step.
Qed.

Lemma debounce_delay_positive secs :
  0 < secs -> debounce_delay (Some secs) = Some (secs * 1000).
Proof.
  intros Hs. unfold debounce_delay, truthy_number.
  destruct (secs =? 0) eqn:E; [apply Z.eqb_eq in E; lia|done].
Qed.

Lemma polling_inv_subscription options cams secs :
  cameraStatusPollingSeconds options = Some secs ->
  0 < secs ->
  polling_inv (secs * 1000) (subscription options cams).
Proof.
  intros Ho Hs. constructor; simpl; rewrite ?Ho, ?debounce_delay_positive;
    try done.
  - intros due [= <-]. split; [lia|]. intros c k Hin.
    by apply elem_of_nil in Hin.
  - intros c k Hin. by apply elem_of_nil in Hin.
  - intros pre t k post Heq. by destruct pre.
Qed.

(** *** What the timers leave untouched *)

Lemma status_fetches_snoc tr o :
  status_fetches (tr ++ [o])
  = status_fetches tr ++ (if is_status_fetch o then [o] else []).
Proof.
  unfold status_fetches. rewrite List.filter_app. simpl.
  by destruct (is_status_fetch o).
Qed.

Lemma fire_dings_frame t l :
  clock (fire_dings t l) = clock l
  /\ registered (fire_dings t l) = registered l
  /\ halted (fire_dings t l) = halted l
  /\ requestThrottle (fire_dings t l) = requestThrottle l
  /\ mergedThrottle (fire_dings t l) = mergedThrottle l
  /\ statusDelay (fire_dings t l) = statusDelay l
  /\ dingsDelay (fire_dings t l) = dingsDelay l
  /\ status (fire_dings t l) = status l
  /\ status_fetches (trace (fire_dings t l)) = status_fetches (trace l).
Proof.
  unfold fire_dings. destruct (timer (dings l)) as [due|]; [|done].
  destruct (due <=? t); [|done]. simpl.
  rewrite status_fetches_snoc. simpl. by rewrite app_nil_r.
Qed.

Lemma trigger_frame src t l :
  clock (trigger src t l) = clock l
  /\ registered (trigger src t l) = registered l
  /\ halted (trigger src t l) = halted l
  /\ requestThrottle (trigger src t l) = requestThrottle l
  /\ statusDelay (trigger src t l) = statusDelay l
  /\ dingsDelay (trigger src t l) = dingsDelay l
  /\ dings (trigger src t l) = dings l.
Proof.
  unfold trigger. by destruct (throttle_open (mergedThrottle l) t).
Qed.

Lemma fire_status_frame t l :
  clock (fire_status t l) = clock l
  /\ registered (fire_status t l) = registered l
  /\ halted (fire_status t l) = halted l
  /\ requestThrottle (fire_status t l) = requestThrottle l
  /\ statusDelay (fire_status t l) = statusDelay l
  /\ dingsDelay (fire_status t l) = dingsDelay l
  /\ dings (fire_status t l) = dings l.
Proof.
  unfold fire_status. destruct (timer (status l)) as [due|]; [|done].
  destruct (due <=? t); [|done].
  exact (trigger_frame Poll due
           (set_status (set_pipeline_timer None (status l)) l)).
Qed.

Lemma advance_frame t l :
  clock (advance t l) = Z.max (clock l) t
  /\ registered (advance t l) = registered l
  /\ halted (advance t l) = halted l
  /\ requestThrottle (advance t l) = requestThrottle l
  /\ statusDelay (advance t l) = statusDelay l
  /\ dingsDelay (advance t l) = dingsDelay l.
Proof.
  unfold advance.
  destruct (fire_dings_frame (Z.max (clock l) t)
              (fire_status (Z.max (clock l) t)
                 (set_clock (Z.max (clock l) t) l)))
    as (-> & -> & -> & -> & _ & -> & -> & _).
  destruct (fire_status_frame (Z.max (clock l) t)
              (set_clock (Z.max (clock l) t) l))
    as (-> & -> & -> & -> & -> & -> & _).
  done.
Qed.

(** With no status timer due, time passing leaves the status pipeline as
    it is. *)
Lemma advance_status_quiet t l :
  (forall due, timer (status l) = Some due -> t < due) ->
  clock l <= t ->
  status (advance t l) = status l
  /\ mergedThrottle (advance t l) = mergedThrottle l
  /\ status_fetches (trace (advance t l)) = status_fetches (trace l).
Proof.
  intros Hq Ht. unfold advance.
  destruct (fire_dings_frame (Z.max (clock l) t)
              (fire_status (Z.max (clock l) t)
                 (set_clock (Z.max (clock l) t) l)))
    as (_ & _ & _ & _ & -> & _ & _ & -> & ->).
  unfold fire_status. simpl.
  destruct (timer (status l)) as [due|] eqn:Hdue; [|done].
  destruct (due <=? Z.max (clock l) t) eqn:Hle; [|done].
  apply Z.leb_le in Hle. specialize (Hq due eq_refl). lia.
Qed.


(** *** The claims about time *)

(** C3 (as amended).  With a status interval of [secs] > 0 seconds, the
    re-arm subject is seeded once at startup and no fetch begins then: the
    seed goes through the debounce, so the first periodic cycle begins one
    full interval after startup when nothing else happens, and never
    earlier.  Every periodic cycle begins no sooner than the interval after
    the completion of every earlier cycle. *)
Theorem first_poll_one_interval_after_startup options cams secs events :
  cameraStatusPollingSeconds options = Some secs ->
  0 < secs ->
  timer (status (subscription options cams)) = Some (secs * 1000)
  /\ trace (subscription options cams) = []
  /\ status_fetches
       (trace (run_ (subscription options cams) [(secs * 1000, Tick)]))
     = [StatusFetch (secs * 1000) 0 Poll]
  /\ poll_spacing (secs * 1000)
       (trace (run_ (subscription options cams) events)).
Proof.
  intros Ho Hs. split; [|split; [done|split]].
  - simpl. rewrite Ho. by apply debounce_delay_positive.
  - unfold run. cbn [fold_left]. rewrite step_running by done. cbv zeta.
    unfold advance.
    change (clock (subscription options cams)) with 0.
    rewrite Z.max_r by lia.
    destruct (fire_dings_frame (secs * 1000)
                (fire_status (secs * 1000)
                   (set_clock (secs * 1000) (subscription options cams))))
      as (_ & _ & _ & _ & _ & _ & _ & _ & ->).
    unfold fire_status.
    change (timer (status (set_clock (secs * 1000)
                             (subscription options cams))))
      with (debounce_delay (cameraStatusPollingSeconds options)).
    rewrite Ho, debounce_delay_positive by done.
    rewrite Z.leb_refl. done.
  - apply polling_inv_run; [lia|].
    by apply polling_inv_subscription.
Qed.


(** *** Inside a throttle window *)

Lemma in_window_advance t0 fetches t l :
  t < t0 + 500 ->
  in_window t0 fetches l -> in_window t0 fetches (advance t l).
Proof.
  intros Ht [Hc Hr Hm Hf]. unfold advance.
  set (t' := Z.max (clock l) t). assert (Ht' : t' < t0 + 500) by lia.
  destruct (fire_dings_frame t' (fire_status t' (set_clock t' l)))
    as (Ec & _ & _ & Er & Em & _ & _ & _ & Ef).
  assert (Hfs : in_window t0 fetches (fire_status t' (set_clock t' l))).
  { unfold fire_status. simpl.
    destruct (timer (status l)) as [due|]; [|by constructor].
    destruct (due <=? t') eqn:Hle; [|by constructor].
    apply Z.leb_le in Hle. unfold trigger. simpl. rewrite Hm. simpl.
    destruct (t0 + 500 <=? due) eqn:Hopen; [apply Z.leb_le in Hopen; lia|].
    by constructor. }
  destruct Hfs as [Hc' Hr' Hm' Hf'].
  constructor; congruence.
Qed.

Lemma in_window_step t0 fetches l e :
  e.1 < t0 + 500 ->
  in_window t0 fetches l -> in_window t0 fetches (step_ l e).
Proof.
  intros Ht Hw. destruct e as [t ev]. simpl in Ht.
  destruct (halted l) eqn:Hh; [unfold step; by rewrite Hh|].
  rewrite step_running by done. cbv zeta.
  pose proof (in_window_advance t0 fetches t l Ht Hw) as Ha.
  destruct ev as [camera|k rc|k rc|]; [| | |done].
  - case_bool_decide; [|done]. unfold requestUpdate.
    destruct Ha as [Hc Hr Hm Hf]. rewrite Hr. simpl.
    destruct (t0 + 500 <=? clock (advance t l)) eqn:Hopen;
      [apply Z.leb_le in Hopen; lia|].
    by constructor.
  - unfold devicesSettled. case_bool_decide; [|done].
    destruct Ha as [Hc Hr Hm Hf].
    destruct (snd (statusCycle clientApi rc)) as [cameraData| |];
      [|by constructor|by constructor].
    case_bool_decide; [|by constructor].
    unfold onCameraData.
    destruct cameraData; constructor; simpl; try done.
    all: rewrite status_fetches_snoc; simpl; by rewrite app_nil_r.
  - unfold dingsSettled. case_bool_decide; [|done].
    destruct Ha as [Hc Hr Hm Hf].
    destruct (snd (dingsCycle clientApi rc)) as [activeDings| |];
      [|by constructor|by constructor].
    case_bool_decide; [|by constructor].
    unfold onActiveDings.
    destruct activeDings as [[|a records]|]; constructor; simpl; try done.
    all: rewrite status_fetches_snoc; simpl; by rewrite app_nil_r.
Qed.

Lemma in_window_run t0 fetches l events :
  Forall (fun e => e.1 < t0 + 500) events ->
  in_window t0 fetches l -> in_window t0 fetches (run_ l events).
Proof.
  intros Hall. revert l.
  induction Hall as [|e events He _ IH]; intros l Hw; [done|].
  rewrite run_cons. by apply IH, in_window_step.
Qed.

(** The first trigger of a burst, arriving with both throttle stages open,
    starts a fetch at once and opens the window. *)
Lemma window_opens l t0 camera :
  halted l = false ->
  clock l <= t0 ->
  (forall due, timer (status l) = Some due -> t0 < due) ->
  throttle_open (requestThrottle l) t0 = true ->
  throttle_open (mergedThrottle l) t0 = true ->
  (camera < length (registered l))%nat ->
  in_window t0
    (status_fetches (trace l) ++ [StatusFetch t0 (issued (status l)) Manual])
    (step_ l (t0, RequestUpdate camera)).
Proof.
  intros Hh Hc Hq Hr Hm Hcam.
  rewrite step_running by done. cbv zeta.
  destruct (advance_frame t0 l) as (Ec & Ereg & _ & Er & _).
  destruct (advance_status_quiet t0 l Hq Hc) as (Es & Em & Ef).
  rewrite Z.max_r in Ec by done.
  rewrite Ereg, bool_decide_eq_true_2 by done.
  unfold requestUpdate. rewrite Er, Ec, Hr.
  unfold trigger. simpl. rewrite Em, Hm.
  constructor; simpl; try done; [lia|].
  rewrite status_fetches_snoc, Ef, Es. done.
Qed.

(** C6 (as amended).  A burst of manual refresh requests that opens a
    throttle window
    (both throttle stages let its first request through at [t0]) yields
    exactly one snapshot fetch for that window: the first request starts
    it at [t0]; whatever else happens before [t0 + 500] - further requests
    of any camera, timers, fetches settling - starts no fetch. *)
Theorem burst_yields_one_fetch l t0 camera (rest : list (Z * Event)) :
  halted l = false ->
  clock l <= t0 ->
  (forall due, timer (status l) = Some due -> t0 < due) ->
  throttle_open (requestThrottle l) t0 = true ->
  throttle_open (mergedThrottle l) t0 = true ->
  (camera < length (registered l))%nat ->
  Forall (fun e => e.1 < t0 + 500) rest ->
  status_fetches (trace (run_ l ((t0, RequestUpdate camera) :: rest)))
  = status_fetches (trace l) ++ [StatusFetch t0 (issued (status l)) Manual].
Proof.
  intros Hh Hc Hq Hr Hm Hcam Hrest. rewrite run_cons.
  apply (window_fetches t0), in_window_run; [done|].
  by apply window_opens.
Qed.

(** *** A fetch that fails *)



Lemma delays_run l events :
  statusDelay (run_ l events) = statusDelay l
  /\ dingsDelay (run_ l events) = dingsDelay l.
Proof.
  revert l. induction events as [|[t ev] events IH]; intros l; [done|].
  rewrite run_cons. destruct (IH (step_ l (t, ev))) as [-> ->]. clear IH.
  destruct (halted l) eqn:Hh; [unfold step; by rewrite Hh|].
  rewrite step_running by done. cbv zeta.
  destruct (advance_frame t l) as (_ & _ & _ & _ & Es & Ed).
  destruct ev as [camera|k rc|k rc|]; [| | |done].
  - case_bool_decide; [|done]. unfold requestUpdate.
    destruct (throttle_open _ _); [|done].
    destruct (trigger_frame Manual (clock (advance t l))
                (set_requestThrottle (Some (clock (advance t l) + 500))
                   (advance t l))) as (_ & _ & _ & _ & -> & -> & _).
    done.
  - unfold devicesSettled. case_bool_decide; [|done].
    destruct (snd (statusCycle clientApi rc)) as [[records|]| |]; try done.
    all: by case_bool_decide.
  - unfold dingsSettled. case_bool_decide; [|done].
    destruct (snd (dingsCycle clientApi rc)) as [[[|a records]|]| |];
      try done.
    all: by case_bool_decide.
Qed.



End Running.

(** ** The claims about time on sample runs *)

Lemma first_poll_one_interval_after_startup_witness :
  timer (status (subscription (Sample.polling (Some 5) None)
                   Sample.two_cameras)) = Some (5 * 1000)
  /\ trace (subscription (Sample.polling (Some 5) None) Sample.two_cameras)
     = []
  /\ status_fetches
       (trace
          (run Sample.clientApi Sample.updateData Sample.processActiveDing
             (subscription (Sample.polling (Some 5) None) Sample.two_cameras)
             [(5 * 1000, Tick)]))
     = [StatusFetch (5 * 1000) 0 Poll]
  /\ poll_spacing (5 * 1000)
       (trace
          (run Sample.clientApi Sample.updateData Sample.processActiveDing
             (subscription (Sample.polling (Some 5) None) Sample.two_cameras)
             [(5000, Tick); (5300, DevicesSettled 0 Sample.online);
              (10300, Tick)])).
Proof.
  apply (first_poll_one_interval_after_startup Sample.clientApi
           Sample.updateData Sample.processActiveDing
           (Sample.polling (Some 5) None) Sample.two_cameras 5).
  - reflexivity.
  - lia.
Defined.

(** C3, as stated, fails: with a status interval of 5 seconds nothing has
    been fetched 4999 ms after startup; the first periodic fetch is the one
    at 5000 ms. *)
Lemma no_poll_before_first_interval :
  truthy_number (cameraStatusPollingSeconds (Sample.polling (Some 5) None))
  = true
  /\ status_fetches
       (trace
          (run Sample.clientApi Sample.updateData Sample.processActiveDing
             (subscription (Sample.polling (Some 5) None) Sample.two_cameras)
             [(0, Tick); (4999, Tick)])) = []
  /\ status_fetches
       (trace
          (run Sample.clientApi Sample.updateData Sample.processActiveDing
             (subscription (Sample.polling (Some 5) None) Sample.two_cameras)
             [(0, Tick); (4999, Tick); (5000, Tick)]))
     = [StatusFetch 5000 0 Poll].
Proof. repeat split; vm_compute; reflexivity. Qed.


Lemma burst_yields_one_fetch_witness :
  status_fetches
    (trace
       (run Sample.clientApi Sample.updateData Sample.processActiveDing
          (subscription (Sample.polling None None) Sample.two_cameras)
          ((0, RequestUpdate 0)
             :: [(100, RequestUpdate 1);
                 (250, DevicesSettled 0 Sample.online);
                 (499, RequestUpdate 0)])))
  = status_fetches
      (trace (subscription (Sample.polling None None) Sample.two_cameras))
      ++ [StatusFetch 0
            (issued
               (status
                  (subscription (Sample.polling None None)
                     Sample.two_cameras)))
            Manual].
Proof.
  apply (burst_yields_one_fetch Sample.clientApi Sample.updateData
           Sample.processActiveDing
           (subscription (Sample.polling None None) Sample.two_cameras)
           0 0%nat).
  - reflexivity.
  - simpl. lia.
  - intros due Hdue. simpl in Hdue. discriminate Hdue.
  - reflexivity.
  - reflexivity.
  - simpl. lia.
  - repeat constructor; simpl; lia.
Defined.


(** The listener of an options object with intervals of whole seconds is
    the listener by the delays those intervals give. *)
Lemma subscription_listening options cams :
  (forall secs, cameraStatusPollingSeconds options = Some secs -> 0 <= secs) ->
  (forall secs, cameraDingsPollingSeconds options = Some secs -> 0 <= secs) ->
  subscription options cams
  = listening (debounce_delay (cameraStatusPollingSeconds options))
      (debounce_delay (cameraDingsPollingSeconds options)) cams.
Proof.
  intros Hs Hd. unfold subscription, listening. cbv zeta.
  assert (H : forall seconds,
            (forall secs, seconds = Some secs -> 0 <= secs) ->
            Z.max 0 <$> debounce_delay seconds = debounce_delay seconds).
  { intros [secs|] Hpos; [|done]. specialize (Hpos secs eq_refl).
    unfold debounce_delay. destruct (truthy_number (Some secs)); [|done].
    simpl. f_equal. lia. }
  by rewrite !H.
Qed.


(** C6, as stated, fails when a throttle stage is closed as the burst
    arrives.  A poll at 1000 ms closes the merged stage until 1500 ms; a
    request at 1100 ms passes the request stage, closing it until 1600 ms,
    and is dropped by the merged stage.  The burst of 1510, 1550 and
    1599 ms finds the merged stage open again and the request stage
    closed: all three requests are dropped and no fetch starts before
    2010 ms. *)
Lemma burst_behind_a_closed_request_stage_starts_no_fetch :
  mergedThrottle
    (run Sample.clientApi Sample.updateData Sample.processActiveDing
       (subscription (Sample.polling (Some 1) None) Sample.two_cameras)
       [(1000, Tick); (1050, DevicesSettled 0 Sample.online);
        (1100, RequestUpdate 0)])
  = Some 1500
  /\ requestThrottle
       (run Sample.clientApi Sample.updateData Sample.processActiveDing
          (subscription (Sample.polling (Some 1) None) Sample.two_cameras)
          [(1000, Tick); (1050, DevicesSettled 0 Sample.online);
           (1100, RequestUpdate 0)])
     = Some 1600
  /\ status_fetches
       (trace
          (run Sample.clientApi Sample.updateData Sample.processActiveDing
             (subscription (Sample.polling (Some 1) None) Sample.two_cameras)
             [(1000, Tick); (1050, DevicesSettled 0 Sample.online);
              (1100, RequestUpdate 0)]))
     = [StatusFetch 1000 0 Poll]
  /\ status_fetches
       (trace
          (run Sample.clientApi Sample.updateData Sample.processActiveDing
             (subscription (Sample.polling (Some 1) None) Sample.two_cameras)
             [(1000, Tick); (1050, DevicesSettled 0 Sample.online);
              (1100, RequestUpdate 0);
              (1510, RequestUpdate 0); (1550, RequestUpdate 1);
              (1599, RequestUpdate 0); (2009, Tick)]))
     = [StatusFetch 1000 0 Poll].
Proof. repeat split; vm_compute; reflexivity. Qed.

(** * Further properties of the directory builder *)

(** The build rejects exactly when one of its two requests fails.  The
    location list is asked for first: when that request fails the snapshot
    is never requested.  A build that rejects has registered nothing. *)
Theorem build_rejects_iff_a_request_fails clientApi options rc :
  (snd (fetchAndBuildLocations clientApi options rc) = Rejected <->
     user_locations rc = None \/ ring_devices rc = None)
  /\ (user_locations rc = None ->
      fst (fetchAndBuildLocations clientApi options rc)
      = [Request "https://app.ring.com/rhq/v1/devices/v1/locations"])
  /\ (snd (fetchAndBuildLocations clientApi options rc) = Rejected ->
      List.filter is_subscribe
        (fst (fetchAndBuildLocations clientApi options rc)) = []).
Proof.
  pose proof (fetchRingDevices_cases clientApi rc) as Hc.
  rewrite fetchAndBuildLocations_unfold.
  destruct (user_locations rc) as [raw|].
  2:{ simpl. split; [|split]; try done. split; [by left|done]. }
  destruct (ring_devices rc) as [r|].
  - destruct (using2fa rc && truthy_string (refreshToken rc)).
    + destruct Hc as (m1 & m2 & ->). simpl.
      split; [|split]; try done. split; [done|]. by intros [|].
    + rewrite Hc. simpl. split; [|split]; try done.
      split; [done|]. by intros [|].
  - rewrite Hc. simpl. split; [|split]; try done. split; [by right|done].
Qed.

Lemma fetchAndBuildLocations_resolved clientApi options rc locs :
  snd (fetchAndBuildLocations clientApi options rc) = Resolved locs ->
  exists raw r d,
    user_locations rc = Some raw
    /\ ring_devices rc = Some r
    /\ fetchRingDevices clientApi rc
       = ([Request (clientApi "ring_devices")], Resolved d)
    /\ d = {| doorbots := r_doorbots r;
              authorizedDoorbots := r_authorized_doorbots r;
              stickupCams := r_stickup_cams r;
              allCameras :=
                r_doorbots r ++ r_stickup_cams r ++ r_authorized_doorbots r;
              baseStations := r_base_stations r;
              beamBridges := r_beams_bridges r |}
    /\ locs = buildLocations options raw d (buildCameras d)
    /\ fst (fetchAndBuildLocations clientApi options rc)
       = [Request "https://app.ring.com/rhq/v1/devices/v1/locations";
          Request (clientApi "ring_devices")]
         ++ fst (listenForCameraUpdates options (buildCameras d) rc).
Proof.
  pose proof (fetchRingDevices_cases clientApi rc) as Hc.
  rewrite fetchAndBuildLocations_unfold.
  destruct (user_locations rc) as [raw|]; [|done].
  destruct (ring_devices rc) as [r|]; [|by rewrite Hc].
  destruct (using2fa rc && truthy_string (refreshToken rc)).
  - destruct Hc as (m1 & m2 & ->). done.
  - rewrite Hc. simpl. intros [= <-]. by eexists raw, r, _.
Qed.

(** A location is built with [hasHubs] set exactly when a base station or
    a beam bridge of the snapshot carries its [location_id]. *)
Theorem hasHubs_iff_hub_at_location clientApi options rc locs :
  snd (fetchAndBuildLocations clientApi options rc) = Resolved locs ->
  exists r,
    ring_devices rc = Some r
    /\ Forall
         (fun location =>
            hasHubs location = true <->
            (exists b, b ∈ r_base_stations r
                       /\ base_location_id b
                          = location_id (locationDetails location))
            \/ (exists b, b ∈ r_beams_bridges r
                          /\ bridge_location_id b
                             = location_id (locationDetails location)))
         locs.
Proof.
  intros Hb.
  apply fetchAndBuildLocations_resolved in Hb.
  destruct Hb as (raw & r & d & _ & Hr & _ & -> & -> & _).
  exists r. split; [done|]. unfold buildLocations. simpl.
  apply Forall_forall. intros location Hin.
  apply list_elem_of_In, in_map_iff in Hin. destruct Hin as (x & <- & _).
  simpl. rewrite includes_string_elem_of, elem_of_app.
  rewrite !list_elem_of_In, !in_map_iff.
  split.
  - intros [(b & Hb & Hin)|(b & Hb & Hin)]; [left|right]; exists b;
      (split; [by apply list_elem_of_In|done]).
  - intros [(b & Hin & Hb)|(b & Hin & Hb)]; [left|right]; exists b;
      (split; [done|by apply list_elem_of_In]).
Qed.

Lemma hasHubs_iff_hub_at_location_witness :
  exists r,
    ring_devices Sample.online = Some r
    /\ Forall
         (fun location =>
            hasHubs location = true <->
            (exists b, b ∈ r_base_stations r
                       /\ base_location_id b
                          = location_id (locationDetails location))
            \/ (exists b, b ∈ r_beams_bridges r
                          /\ bridge_location_id b
                             = location_id (locationDetails location)))
         [ {| locationDetails := {| location_id := "L1" |};
              cameras := [newRingCamera Sample.front true];
              hasHubs := false |};
           {| locationDetails := {| location_id := "L2" |};
              cameras := [newRingCamera Sample.garden false];
              hasHubs := true |} ].
Proof.
  apply (hasHubs_iff_hub_at_location Sample.clientApi
           (Sample.polling None None) Sample.online).
  vm_compute. reflexivity.
Defined.

Lemma includes_true x l :
  includes x l = true <-> exists y, y ∈ l /\ data_ref y = data_ref x.
Proof.
  unfold includes. rewrite existsb_exists. split.
  - intros (y & Hin & Heq). exists y. split; [by apply list_elem_of_In|].
    by apply Nat.eqb_eq.
  - intros (y & Hin & Heq). exists y. split; [by apply list_elem_of_In|].
    by apply Nat.eqb_eq.
Qed.

(** A camera is flagged as a doorbot exactly when the object that is its
    data is an entry of [doorbots] or of [authorized_doorbots]. *)
Theorem isDoorbot_iff_listed_as_doorbot clientApi rc d :
  snd (fetchRingDevices clientApi rc) = Resolved d ->
  exists r,
    ring_devices rc = Some r
    /\ Forall
         (fun camera =>
            isDoorbot camera = true <->
            exists x,
              (x ∈ r_doorbots r \/ x ∈ r_authorized_doorbots r)
              /\ data_ref x = data_ref (data camera))
         (buildCameras d).
Proof.
  intros Hd. destruct (fetchRingDevices_resolved _ _ _ Hd) as (r & Hr & ->).
  exists r. split; [done|]. apply Forall_forall. intros camera Hin.
  apply list_elem_of_In, in_map_iff in Hin. destruct Hin as (x & <- & _).
  simpl. rewrite orb_true_iff, !includes_true. split.
  - intros [(y & Hy & Heq)|(y & Hy & Heq)]; exists y; auto.
  - intros (y & [Hy|Hy] & Heq); [left|right]; by exists y.
Qed.

Lemma isDoorbot_iff_listed_as_doorbot_witness :
  exists r,
    ring_devices Sample.online = Some r
    /\ Forall
         (fun camera =>
            isDoorbot camera = true <->
            exists x,
              (x ∈ r_doorbots r \/ x ∈ r_authorized_doorbots r)
              /\ data_ref x = data_ref (data camera))
         (buildCameras
            {| doorbots := [Sample.front];
               authorizedDoorbots := [];
               stickupCams := [Sample.garden];
               allCameras := [Sample.front; Sample.garden];
               baseStations := [];
               beamBridges := [ {| bridge_location_id := "L2" |} ] |}).
Proof.
  apply (isDoorbot_iff_listed_as_doorbot Sample.clientApi Sample.online).
  reflexivity.
Defined.

(** A build that resolves registers the whole camera set of the snapshot
    with the coordinators exactly once - whatever the allow-list keeps -
    and registers nothing when the snapshot has no camera. *)
Theorem build_registers_every_camera_once clientApi options rc locs :
  snd (fetchAndBuildLocations clientApi options rc) = Resolved locs ->
  exists d,
    snd (fetchRingDevices clientApi rc) = Resolved d
    /\ List.filter is_subscribe
         (fst (fetchAndBuildLocations clientApi options rc))
       = match buildCameras d with
         | [] => []
         | _ :: _ => [Subscribe (subscription options (buildCameras d))]
         end
    /\ List.filter is_request
         (fst (fetchAndBuildLocations clientApi options rc))
       = [Request "https://app.ring.com/rhq/v1/devices/v1/locations";
          Request (clientApi "ring_devices")].
Proof.
  intros Hb.
  apply fetchAndBuildLocations_resolved in Hb.
  destruct Hb as (raw & r & d & _ & _ & Hd & _ & _ & ->).
  exists d. rewrite Hd. split; [done|].
  unfold listenForCameraUpdates. by destruct (buildCameras d).
Qed.

Lemma build_registers_every_camera_once_witness :
  exists d,
    snd (fetchRingDevices Sample.clientApi Sample.online) = Resolved d
    /\ List.filter is_subscribe
         (fst (fetchAndBuildLocations Sample.clientApi Sample.only_L1
                 Sample.online))
       = match buildCameras d with
         | [] => []
         | _ :: _ => [Subscribe (subscription Sample.only_L1 (buildCameras d))]
         end
    /\ List.filter is_request
         (fst (fetchAndBuildLocations Sample.clientApi Sample.only_L1
                 Sample.online))
       = [Request "https://app.ring.com/rhq/v1/devices/v1/locations";
          Request (Sample.clientApi "ring_devices")].
Proof.
  apply (build_registers_every_camera_once Sample.clientApi Sample.only_L1
           Sample.online
           [ {| locationDetails := {| location_id := "L1" |};
                cameras := [newRingCamera Sample.front true];
                hasHubs := false |} ]).
  vm_compute. reflexivity.
Defined.

Lemma flatten_cameras (locs : list Location) acc :
  fold_left (fun cams location => cams ++ cameras location) locs acc
  = acc ++ concat (map cameras locs).
Proof.
  revert acc. induction locs as [|location locs IH]; intros acc; simpl.
  - by rewrite app_nil_r.
  - by rewrite IH, app_assoc.
Qed.

(** [getCameras] issues no request of its own.  After a build that
    resolves it returns the cameras of the locations of the directory, one
    location after the other: a camera is returned exactly when it was built
    and a kept raw location carries its [location_id]. *)
Theorem getCameras_returns_cameras_of_kept_locations clientApi options rc
    locs :
  snd (fetchAndBuildLocations clientApi options rc) = Resolved locs ->
  exists raw d,
    user_locations rc = Some raw
    /\ snd (fetchRingDevices clientApi rc) = Resolved d
    /\ (newRingApi clientApi options ≫= getCameras) rc
       = (fst (fetchAndBuildLocations clientApi options rc),
          Resolved (concat (map cameras locs)))
    /\ forall camera,
         camera ∈ concat (map cameras locs) <->
         camera ∈ buildCameras d
         /\ exists location,
              location ∈ raw
              /\ keepLocation options location = true
              /\ location_id location = data_location_id (data camera).
Proof.
  intros Hb.
  pose proof (fetchAndBuildLocations_resolved _ _ _ _ Hb)
    as (raw & r & d & Hraw & _ & Hd & _ & Hlocs & _).
  exists raw, d. rewrite Hd. split; [done|]. split; [done|]. split.
  - unfold newRingApi, getCameras, await, mbind, async_bind, mret, async_ret.
    destruct (fetchAndBuildLocations clientApi options rc) as [e o].
    simpl in Hb. subst o. simpl.
    by rewrite flatten_cameras, !app_nil_r.
  - intros camera. rewrite Hlocs. unfold buildLocations.
    rewrite map_map. simpl.
    rewrite list_elem_of_In, in_concat. split.
    + intros (cs & Hcs & Hin). apply in_map_iff in Hcs.
      destruct Hcs as (location & <- & Hloc).
      apply list_elem_of_In, list_elem_of_filter in Hloc.
      apply list_elem_of_In, list_elem_of_filter in Hin.
      destruct Hloc as [Hkeep Hloc]. destruct Hin as [Heq Hin].
      split; [done|]. by exists location.
    + intros (Hin & location & Hloc & Hkeep & Heq).
      exists (filter
                (fun x => data_location_id (data x) = location_id location)
                (buildCameras d)).
      split.
      * apply in_map_iff. exists location. split; [done|].
        apply list_elem_of_In, list_elem_of_filter. by split.
      * apply list_elem_of_In, list_elem_of_filter. by split.
Qed.

Lemma getCameras_returns_cameras_of_kept_locations_witness :
  exists raw d,
    user_locations Sample.online = Some raw
    /\ snd (fetchRingDevices Sample.clientApi Sample.online) = Resolved d
    /\ (newRingApi Sample.clientApi Sample.only_L1 ≫= getCameras)
         Sample.online
       = (fst (fetchAndBuildLocations Sample.clientApi Sample.only_L1
                 Sample.online),
          Resolved
            (concat
               (map cameras
                  [ {| locationDetails := {| location_id := "L1" |};
                       cameras := [newRingCamera Sample.front true];
                       hasHubs := false |} ])))
    /\ forall camera,
         camera
         ∈ concat
             (map cameras
                [ {| locationDetails := {| location_id := "L1" |};
                     cameras := [newRingCamera Sample.front true];
                     hasHubs := false |} ]) <->
         camera ∈ buildCameras d
         /\ exists location,
              location ∈ raw
              /\ keepLocation Sample.only_L1 location = true
              /\ location_id location = data_location_id (data camera).
Proof.
  apply (getCameras_returns_cameras_of_kept_locations Sample.clientApi
           Sample.only_L1 Sample.online).
  vm_compute. reflexivity.
Defined.

(** * Further properties of the registry and of dispatch *)

Lemma index_cameras_lookup_Some cs : forall (n : nat) byId k (i : nat),
  index_cameras n cs byId !! k = Some i <->
  (exists (p : nat) c,
     i = (n + p)%nat /\ cs !! p = Some c /\ id c = k
     /\ forall (q : nat) c', (p < q)%nat -> cs !! q = Some c' -> id c' ≠ k)
  \/ (byId !! k = Some i /\ forall c, c ∈ cs -> id c ≠ k).
Proof.
  induction cs as [|c0 cs IH]; intros n byId k i; simpl.
  - split.
    + intros H. right. split; [done|]. intros c Hin.
      by apply elem_of_nil in Hin.
    + intros [(p & c & _ & Hp & _)|[H _]]; [done|done].
  - rewrite IH. clear IH. split.
    + intros [(p & c & -> & Hp & Hid & Hlater)|[Hk Hcs]].
      * left. exists (S p), c. split; [lia|]. split; [done|]. split; [done|].
        intros [|q] c' Hq Hc'; [lia|]. simpl in Hc'.
        eapply Hlater; [|done]. lia.
      * destruct (decide (id c0 = k)) as [Heq|Hne].
        -- subst k. rewrite lookup_insert_eq in Hk. injection Hk as <-.
           left. exists 0%nat, c0. split; [lia|]. split; [done|].
           split; [done|]. intros [|q] c' Hq Hc'; [lia|]. simpl in Hc'.
           apply Hcs. by eapply list_elem_of_lookup_2.
        -- rewrite lookup_insert_ne in Hk by done. right. split; [done|].
           intros c Hin. apply elem_of_cons in Hin.
           destruct Hin as [->|Hin]; auto.
    + intros [(p & c & -> & Hp & Hid & Hlater)|[Hk Hcs]].
      * destruct p as [|p]; simpl in Hp.
        -- injection Hp as ->. right. split.
           ++ subst k. rewrite lookup_insert_eq. f_equal. lia.
           ++ intros c' Hin. apply list_elem_of_lookup in Hin.
              destruct Hin as [q Hq]. apply (Hlater (S q)); [lia|done].
        -- left. exists p, c. split; [lia|]. split; [done|]. split; [done|].
           intros q c' Hq Hc'. apply (Hlater (S q)); [lia|done].
      * right. split.
        -- rewrite lookup_insert_ne; [done|]. apply Hcs.
           apply elem_of_cons. by left.
        -- intros c Hin. apply Hcs. apply elem_of_cons. by right.
Qed.

Lemma registry_lookup_Some options cams k (i : nat) :
  camerasById (subscription options cams) !! k = Some i <->
  exists camera,
    cams !! i = Some camera /\ id camera = k
    /\ forall (j : nat) camera',
         (i < j)%nat -> cams !! j = Some camera' -> id camera' ≠ k.
Proof.
  simpl. rewrite index_cameras_lookup_Some. split.
  - intros [(p & c & -> & Hp & Hid & Hlater)|[Hk _]]; [|done].
    by exists c.
  - intros (c & Hi & Hid & Hlater). left. by exists i, c.
Qed.

(** The registry maps an id to the LAST registered camera that has it: an
    id is looked up to position [i] exactly when the camera at [i] has that
    id and no camera after it does; an id no camera has is absent. *)
Theorem camerasById_last_wins options cams k :
  (camerasById (subscription options cams) !! k = None <->
     forall camera, camera ∈ cams -> id camera ≠ k)
  /\ forall i : nat,
       camerasById (subscription options cams) !! k = Some i <->
       exists camera,
         cams !! i = Some camera /\ id camera = k
         /\ forall (j : nat) camera',
              (i < j)%nat -> cams !! j = Some camera' -> id camera' ≠ k.
Proof.
  split.
  - simpl. rewrite index_cameras_lookup. split; [by intros [_ H]|by split].
  - intros i. apply registry_lookup_Some.
Qed.

Section DispatchById.

(** Dispatch of records of type [R], keyed by [key], through [sink]. *)
Context {R : Type} (key : R -> Z) (sink : RingCamera -> R -> RingCamera).
Variable byId : gmap Z nat.
Variable dispatch : list RingCamera -> R -> list RingCamera.
Hypothesis dispatch_spec : forall store r,
  dispatch store r
  = match byId !! key r with
    | Some i =>
        match store !! i with
        | Some camera => <[i := sink camera r]> store
        | None => store
        end
    | None => store
    end.


Lemma dispatch_other store r (j : nat) :
  byId !! key r ≠ Some j -> dispatch store r !! j = store !! j.
Proof.
  intros Hj. rewrite dispatch_spec.
  destruct (byId !! key r) as [i|]; [|done].
  destruct (store !! i); [|done].
  apply list_lookup_insert_ne. congruence.
Qed.



(** When no two ids share a position, the camera registered under [k]
    receives, in order, exactly the records keyed [k]. *)
Lemma dispatch_all_delivers records k (i : nat) :
  (forall k', byId !! k' = Some i -> k' = k) ->
  byId !! k = Some i ->
  forall store camera,
    store !! i = Some camera ->
    fold_left dispatch records store !! i
    = Some (fold_left sink (filter (fun r => key r = k) records) camera).
Proof.
  intros Hinj Hk.
  induction records as [|r records IH]; intros store camera Hi; simpl;
    [done|].
  destruct (decide (key r = k)) as [Heq|Hne].
  - rewrite filter_cons_True by done. simpl. apply IH.
    rewrite dispatch_spec, Heq, Hk, Hi.
    apply list_lookup_insert_eq. by eapply lookup_lt_Some.
  - rewrite filter_cons_False by done. apply IH.
    rewrite dispatch_other; [done|]. intros Hr. by apply Hinj in Hr.
Qed.

End DispatchById.

Lemma camerasById_injective options cams k k' (i : nat) :
  camerasById (subscription options cams) !! k = Some i ->
  camerasById (subscription options cams) !! k' = Some i ->
  k' = k.
Proof.
  intros Hk Hk'.
  apply registry_lookup_Some in Hk. apply registry_lookup_Some in Hk'.
  destruct Hk as (c & Hc & <- & _). destruct Hk' as (c' & Hc' & <- & _).
  congruence.
Qed.

Section Delivery.

Variable updateData : RingCamera -> CameraData -> RingCamera.
Variable processActiveDing : RingCamera -> ActiveDing -> RingCamera.

(** Whatever the store holds at the position registered under an id, a
    dispatch hands it, in their order, exactly the records that carry this
    id: status records through [updateData], dings through
    [processActiveDing]. *)
Theorem dispatch_delivers_by_id options cams store k (i : nat) camera
    (records : list CameraData) (events : list ActiveDing) :
  camerasById (subscription options cams) !! k = Some i ->
  store !! i = Some camera ->
  fold_left
    (dispatchData updateData (camerasById (subscription options cams)))
    records store !! i
  = Some
      (fold_left updateData (filter (fun r => data_id r = k) records) camera)
  /\ fold_left
       (dispatchDing processActiveDing
          (camerasById (subscription options cams)))
       events store !! i
     = Some
         (fold_left processActiveDing
            (filter (fun a => doorbot_id a = k) events) camera).
Proof.
  intros Hk Hi. split.
  - apply (dispatch_all_delivers data_id updateData
             (camerasById (subscription options cams))); try done.
    intros k' Hk'. by eapply camerasById_injective.
  - apply (dispatch_all_delivers doorbot_id processActiveDing
             (camerasById (subscription options cams))); try done.
    intros k' Hk'. by eapply camerasById_injective.
Qed.

End Delivery.

Lemma dispatch_delivers_by_id_witness :
  fold_left
    (dispatchData Sample.updateData
       (camerasById (subscription Sample.only_L1 Sample.two_cameras)))
    [Sample.garden; Sample.stranger; Sample.front_authorized]
    Sample.two_cameras !! 0%nat
  = Some
      (fold_left Sample.updateData
         (filter (fun r => data_id r = 7)
            [Sample.garden; Sample.stranger; Sample.front_authorized])
         (newRingCamera Sample.front true))
  /\ fold_left
       (dispatchDing Sample.processActiveDing
          (camerasById (subscription Sample.only_L1 Sample.two_cameras)))
       [ {| ding_id := 1; doorbot_id := 7 |};
         {| ding_id := 2; doorbot_id := 9 |};
         {| ding_id := 3; doorbot_id := 7 |} ]
       Sample.two_cameras !! 0%nat
     = Some
         (fold_left Sample.processActiveDing
            (filter (fun a => doorbot_id a = 7)
               [ {| ding_id := 1; doorbot_id := 7 |};
                 {| ding_id := 2; doorbot_id := 9 |};
                 {| ding_id := 3; doorbot_id := 7 |} ])
            (newRingCamera Sample.front true)).
Proof.
  apply (dispatch_delivers_by_id Sample.updateData Sample.processActiveDing
           Sample.only_L1 Sample.two_cameras Sample.two_cameras 7 0%nat
           (newRingCamera Sample.front true)).
  - reflexivity.
  - reflexivity.
Defined.

(** * Further properties of the running pipelines *)

Section Invariants.

Variable clientApi : string -> string.
Variable updateData : RingCamera -> CameraData -> RingCamera.
Variable processActiveDing : RingCamera -> ActiveDing -> RingCamera.

Abbreviation step' := (step clientApi updateData processActiveDing).
Abbreviation run' := (run clientApi updateData processActiveDing).

(** A property kept by each of the six things a step is made of is kept
    by every step, hence by every run. *)
Lemma step_preserves (P : Listener -> Prop) :
  (forall l t, clock l <= t -> P l -> P (set_clock t l)) ->
  (forall l due,
     timer (status l) = Some due -> due <= clock l -> P l ->
     P (trigger Poll due
          (set_status (set_pipeline_timer None (status l)) l))) ->
  (forall l due,
     timer (dings l) = Some due -> due <= clock l -> P l ->
     P (log (DingsFetch due (issued (dings l)))
          (set_dings (start_fetch (set_pipeline_timer None (dings l))) l))) ->
  (forall l,
     throttle_open (requestThrottle l) (clock l) = true -> P l ->
     P (trigger Manual (clock l)
          (set_requestThrottle (Some (clock l + 500)) l))) ->
  (forall l k rc, P l -> P (devicesSettled clientApi updateData k rc l)) ->
  (forall l k rc, P l -> P (dingsSettled clientApi processActiveDing k rc l)) ->
  forall l e, P l -> P (step' l e).
Proof.
  intros Hclock Hfire Hdfire Hmanual Hdev Hding l [t ev] HP.
  destruct (halted l) eqn:Hh; [unfold step; by rewrite Hh|].
  rewrite step_running by done. cbv zeta.
  assert (Ha : P (advance t l)).
  { unfold advance. set (t' := Z.max (clock l) t).
    assert (H1 : P (set_clock t' l)) by (apply Hclock; [lia|done]).
    assert (H2 : P (fire_status t' (set_clock t' l))).
    { unfold fire_status.
      destruct (timer (status (set_clock t' l))) as [due|] eqn:Hdue; [|done].
      destruct (due <=? t') eqn:Hle; [|done].
      apply Z.leb_le in Hle. by apply Hfire. }
    unfold fire_dings.
    destruct (timer (dings (fire_status t' (set_clock t' l))))
      as [due|] eqn:Hdue; [|done].
    destruct (due <=? t') eqn:Hle; [|done].
    apply Z.leb_le in Hle. apply Hdfire; [done| |done].
    destruct (fire_status_frame t' (set_clock t' l)) as (-> & _). done. }
  destruct ev as [camera|k rc|k rc|]; [| | |done].
  - case_bool_decide; [|done]. unfold requestUpdate.
    destruct (throttle_open _ _) eqn:Hopen; [|done]. by apply Hmanual.
  - by apply Hdev.
  - by apply Hding.
Qed.

Lemma run_preserves (P : Listener -> Prop) :
  (forall l e, P l -> P (step' l e)) ->
  forall events l, P l -> P (run' l events).
Proof.
  intros Hstep events. induction events as [|e events IH]; intros l HP;
    [done|].
  rewrite run_cons. by apply IH, Hstep.
Qed.

(** *** The registered cameras *)





(** *** No interval, no polling *)

Lemma not_elem_of_snoc (tr : list Obs) o x :
  x ∉ tr -> x ≠ o -> x ∉ tr ++ [o].
Proof.
  intros Htr Ho Hin. apply elem_of_app in Hin.
  destruct Hin as [Hin|Hin]; [done|].
  by apply list_elem_of_singleton in Hin.
Qed.

Lemma no_status_polling_step l e :
  no_status_polling l -> no_status_polling (step' l e).
Proof.
  revert l e. apply step_preserves.
  - intros l t _ [Hd Ht Hp]. by constructor.
  - intros l due Hdue _ [Hd Ht Hp]. congruence.
  - intros l due _ _ [Hd Ht Hp]. constructor; simpl; try done.
    intros t k. by apply not_elem_of_snoc.
  - intros l _ [Hd Ht Hp]. unfold trigger.
    destruct (throttle_open _ _); constructor; simpl; try done.
    intros t k. by apply not_elem_of_snoc.
  - intros l k rc Hinv. unfold devicesSettled.
    case_bool_decide; [|done]. destruct Hinv as [Hd Ht Hp].
    destruct (snd (statusCycle clientApi rc)) as [cameraData| |];
      [|by constructor|by constructor].
    case_bool_decide; [|by constructor].
    unfold onCameraData. simpl. rewrite Hd.
    destruct cameraData; constructor; simpl; try done.
    all: intros t k'; by apply not_elem_of_snoc.
  - intros l k rc Hinv. unfold dingsSettled.
    case_bool_decide; [|done]. destruct Hinv as [Hd Ht Hp].
    destruct (snd (dingsCycle clientApi rc)) as [activeDings| |];
      [|by constructor|by constructor].
    case_bool_decide; [|by constructor].
    unfold onActiveDings.
    destruct activeDings as [[|a records]|]; constructor; simpl; try done.
    all: intros t k'; by apply not_elem_of_snoc.
Qed.

Lemma no_dings_polling_step l e :
  no_dings_polling l -> no_dings_polling (step' l e).
Proof.
  revert l e. apply step_preserves.
  - intros l t _ [Hd Ht Hp]. by constructor.
  - intros l due _ _ [Hd Ht Hp]. unfold trigger.
    destruct (throttle_open _ _); constructor; simpl; try done.
    intros t k. by apply not_elem_of_snoc.
  - intros l due Hdue _ [Hd Ht Hp]. congruence.
  - intros l _ [Hd Ht Hp]. unfold trigger.
    destruct (throttle_open _ _); constructor; simpl; try done.
    intros t k. by apply not_elem_of_snoc.
  - intros l k rc Hinv. unfold devicesSettled.
    case_bool_decide; [|done]. destruct Hinv as [Hd Ht Hp].
    destruct (snd (statusCycle clientApi rc)) as [cameraData| |];
      [|by constructor|by constructor].
    case_bool_decide; [|by constructor].
    unfold onCameraData.
    destruct cameraData; constructor; simpl; try done.
    all: intros t k'; by apply not_elem_of_snoc.
  - intros l k rc Hinv. unfold dingsSettled.
    case_bool_decide; [|done]. destruct Hinv as [Hd Ht Hp].
    destruct (snd (dingsCycle clientApi rc)) as [activeDings| |];
      [|by constructor|by constructor].
    case_bool_decide; [|by constructor].
    unfold onActiveDings. simpl. rewrite Hd.
    destruct activeDings as [[|a records]|]; constructor; simpl; try done.
    all: intros t k'; by apply not_elem_of_snoc.
Qed.

(** With [cameraStatusPollingSeconds] absent or 0 the status timer is
    never armed and no fetch is ever started by a poll: every status fetch
    answers a camera's request. *)
Theorem no_status_interval_no_poll options cams events :
  truthy_number (cameraStatusPollingSeconds options) = false ->
  timer (status (run' (subscription options cams) events)) = None
  /\ forall t k,
       StatusFetch t k Poll ∉ trace (run' (subscription options cams) events).
Proof.
  intros Hfalsy.
  assert (H0 : no_status_polling (subscription options cams)).
  { constructor; simpl; unfold debounce_delay; rewrite ?Hfalsy; try done.
    intros t k Hin. by apply elem_of_nil in Hin. }
  by destruct (run_preserves _ no_status_polling_step events _ H0).
Qed.

(** With [cameraDingsPollingSeconds] absent or 0 the dings pipeline does
    not exist: no dings fetch is ever started. *)
Theorem no_dings_interval_no_fetch options cams events :
  truthy_number (cameraDingsPollingSeconds options) = false ->
  timer (dings (run' (subscription options cams) events)) = None
  /\ forall t k,
       DingsFetch t k ∉ trace (run' (subscription options cams) events).
Proof.
  intros Hfalsy.
  assert (H0 : no_dings_polling (subscription options cams)).
  { constructor; simpl; unfold debounce_delay; rewrite ?Hfalsy; try done.
    intros t k Hin. by apply elem_of_nil in Hin. }
  by destruct (run_preserves _ no_dings_polling_step events _ H0).
Qed.

(** *** The fetch rate *)

Lemma fetch_spacing_snoc (tr : list Obs) o :
  fetch_spacing tr ->
  (forall t2 k2 src2, o = StatusFetch t2 k2 src2 ->
     forall t1 k1 src1, StatusFetch t1 k1 src1 ∈ tr -> t1 + 500 <= t2) ->
  fetch_spacing (tr ++ [o]).
Proof.
  intros Htr Ho pre t1 k1 src1 post Heq t2 k2 src2 Hin.
  destruct post as [|y post _] using rev_ind.
  - by apply elem_of_nil in Hin.
  - rewrite app_comm_cons, app_assoc in Heq.
    apply app_inj_tail in Heq. destruct Heq as [-> ->].
    apply elem_of_app in Hin. destruct Hin as [Hin|Hin].
    + by eapply Htr.
    + apply list_elem_of_singleton in Hin.
      eapply (Ho t2 k2 src2); [done|].
      apply elem_of_app. right. apply elem_of_cons. by left.
Qed.

Lemma rate_inv_log o l :
  is_status_fetch o = false -> rate_inv l -> rate_inv (log o l).
Proof.
  intros Ho [Hthr Hsp]. constructor; simpl.
  - intros t k src Hin. apply elem_of_app in Hin.
    destruct Hin as [Hin|Hin]; [eauto|].
    apply list_elem_of_singleton in Hin. by subst o.
  - apply fetch_spacing_snoc; [done|]. intros t2 k2 src2 ->. done.
Qed.

Lemma rate_inv_trigger src t l :
  rate_inv l -> rate_inv (trigger src t l).
Proof.
  intros Hinv. unfold trigger.
  destruct (throttle_open (mergedThrottle l) t) eqn:Hopen; [|done].
  destruct Hinv as [Hthr Hsp].
  assert (Hold : forall t1 k1 src1,
            StatusFetch t1 k1 src1 ∈ trace l -> t1 + 500 <= t).
  { intros t1 k1 src1 Hin. destruct (Hthr _ _ _ Hin) as (u & Hu & Hle).
    rewrite Hu in Hopen. simpl in Hopen. apply Z.leb_le in Hopen. lia. }
  constructor; simpl.
  - intros t' k src' Hin. exists (t + 500). split; [done|].
    apply elem_of_app in Hin. destruct Hin as [Hin|Hin].
    + apply Hold in Hin. lia.
    + apply list_elem_of_singleton in Hin. injection Hin as -> _ _. lia.
  - apply fetch_spacing_snoc; [done|].
    intros t2 k2 src2 [= <- _ _]. exact Hold.
Qed.

Lemma rate_inv_step l e : rate_inv l -> rate_inv (step' l e).
Proof.
  revert l e. apply step_preserves.
  - intros l t _ [Hthr Hsp]. by constructor.
  - intros l due _ _ [Hthr Hsp]. apply rate_inv_trigger. by constructor.
  - intros l due _ _ Hinv.
    apply (rate_inv_log (DingsFetch due (issued (dings l)))
             (set_dings (start_fetch (set_pipeline_timer None (dings l))) l));
      [done|].
    destruct Hinv; by constructor.
  - intros l _ [Hthr Hsp]. apply rate_inv_trigger. by constructor.
  - intros l k rc Hinv. unfold devicesSettled.
    case_bool_decide; [|done].
    assert (Hs : rate_inv (set_status (settle_fetch k (status l)) l))
      by (destruct Hinv; by constructor).
    destruct (snd (statusCycle clientApi rc)) as [cameraData| |]; [|done|].
    + case_bool_decide; [|done]. unfold onCameraData.
      match goal with
      | |- context [log ?o ?l'] =>
          assert (Hl : rate_inv (log o l'))
            by (apply rate_inv_log; [done|destruct Hinv; by constructor])
      end.
      destruct cameraData; [|done]. destruct Hl. by constructor.
    + destruct Hinv; by constructor.
  - intros l k rc Hinv. unfold dingsSettled.
    case_bool_decide; [|done].
    assert (Hs : rate_inv (set_dings (settle_fetch k (dings l)) l))
      by (destruct Hinv; by constructor).
    destruct (snd (dingsCycle clientApi rc)) as [activeDings| |]; [|done|].
    + case_bool_decide; [|done]. unfold onActiveDings.
      match goal with
      | |- context [log ?o ?l'] =>
          assert (Hl : rate_inv (log o l'))
            by (apply rate_inv_log; [done|destruct Hinv; by constructor])
      end.
      destruct activeDings as [[|a records]|]; try done.
      destruct Hl. by constructor.
    + destruct Hinv; by constructor.
Qed.

(** However many cameras ask and whatever the timers do, two snapshot
    fetches of the status pipeline never start less than 500 ms apart. *)
Theorem status_fetches_500ms_apart options cams events :
  fetch_spacing (trace (run' (subscription options cams) events)).
Proof.
  assert (H0 : rate_inv (subscription options cams)).
  { constructor; simpl.
    - intros t k src Hin. by apply elem_of_nil in Hin.
    - intros pre t1 k1 src1 post Heq. by destruct pre. }
  by destruct (run_preserves _ rate_inv_step events _ H0).
Qed.

(** *** The dings pipeline in time *)

Lemma elem_of_snoc_dings_done (tr : list Obs) o c k :
  DingsDone c k ∈ tr ++ [o] <-> DingsDone c k ∈ tr \/ o = DingsDone c k.
Proof.
  rewrite elem_of_app, list_elem_of_singleton. split; intros [H|H]; auto.
Qed.

Lemma dings_spacing_snoc D (tr : list Obs) o :
  dings_spacing D tr ->
  (forall t k, o = DingsFetch t k ->
     D <= t /\ forall c k', DingsDone c k' ∈ tr -> c + D <= t) ->
  dings_spacing D (tr ++ [o]).
Proof.
  intros Htr Ho pre t k post Heq.
  destruct post as [|y post _] using rev_ind.
  - apply app_inj_tail in Heq. destruct Heq as [<- ->].
    exact (Ho t k eq_refl).
  - rewrite app_comm_cons, app_assoc in Heq.
    apply app_inj_tail in Heq. destruct Heq as [-> _].
    by eapply Htr.
Qed.

(** Logging anything but a dings fetch or a dings completion. *)
Lemma dings_polling_inv_log D o l :
  (forall t k, o ≠ DingsFetch t k) -> (forall c k, o ≠ DingsDone c k) ->
  dings_polling_inv D l -> dings_polling_inv D (log o l).
Proof.
  intros Hf Hd [Hc Hdel Ht Hdone Hsp]. constructor; simpl; auto.
  - intros due Hdue. destruct (Ht due Hdue) as [HD Hall]. split; [done|].
    intros c k Hin. apply elem_of_snoc_dings_done in Hin.
    destruct Hin as [Hin|Hin]; [eauto|by apply Hd in Hin].
  - intros c k Hin. apply elem_of_snoc_dings_done in Hin.
    destruct Hin as [Hin|Hin]; [eauto|by apply Hd in Hin].
  - apply dings_spacing_snoc; [done|]. intros t k Heq. by apply Hf in Heq.
Qed.

Lemma dings_polling_inv_trigger D src t l :
  dings_polling_inv D l -> dings_polling_inv D (trigger src t l).
Proof.
  intros Hinv. unfold trigger.
  destruct (throttle_open (mergedThrottle l) t); [|done].
  apply dings_polling_inv_log; [done|done|].
  destruct Hinv; by constructor.
Qed.

Lemma dings_polling_inv_step D l e :
  0 <= D -> dings_polling_inv D l -> dings_polling_inv D (step' l e).
Proof.
  intros HD. revert l e. apply step_preserves.
  - intros l t Ht [Hc Hdel Htm Hdone Hsp]. constructor; simpl; auto; [lia|].
    intros c k Hin. apply Hdone in Hin. lia.
  - intros l due _ _ Hinv. apply dings_polling_inv_trigger.
    destruct Hinv; by constructor.
  - intros l due Hdue _ [Hc Hdel Htm Hdone Hsp].
    destruct (Htm due Hdue) as [HDdue Hall].
    constructor; simpl; auto; try done.
    + intros c k Hin. apply elem_of_snoc_dings_done in Hin.
      destruct Hin as [Hin|Hin]; [eauto|done].
    + apply dings_spacing_snoc; [done|]. intros t k [= -> _]. auto.
  - intros l _ Hinv. apply dings_polling_inv_trigger.
    destruct Hinv; by constructor.
  - intros l k rc Hinv. unfold devicesSettled.
    case_bool_decide; [|done].
    assert (Hs : dings_polling_inv D
                   (set_status (settle_fetch k (status l)) l))
      by (destruct Hinv; by constructor).
    destruct (snd (statusCycle clientApi rc)) as [cameraData| |]; [|done|].
    + case_bool_decide; [|done]. unfold onCameraData.
      match goal with
      | |- context [log ?o ?l'] =>
          assert (Hl : dings_polling_inv D (log o l'))
            by (apply dings_polling_inv_log;
                [done|done|destruct Hinv; by constructor])
      end.
      destruct cameraData; [|done]. destruct Hl. by constructor.
    + destruct Hinv; by constructor.
  - intros l k rc Hinv. unfold dingsSettled.
    case_bool_decide; [|done]. destruct Hinv as [Hc Hdel Htm Hdone Hsp].
    destruct (snd (dingsCycle clientApi rc)) as [activeDings| |];
      [|by constructor|by constructor].
    case_bool_decide; [|by constructor].
    assert (Hrearmed : forall c k',
      DingsDone c k' ∈ trace l ++ [DingsDone (clock l) k] -> c <= clock l).
    { intros c k' Hi. apply elem_of_snoc_dings_done in Hi.
      destruct Hi as [Hi|[= -> _]]; [eauto|lia]. }
    unfold onActiveDings. simpl. rewrite Hdel. simpl.
    destruct activeDings as [[|a records]|]; constructor; simpl; auto.
    all: try (intros due [= <-]; split; [lia|];
              intros c k' Hi; apply Hrearmed in Hi; lia).
    all: apply dings_spacing_snoc; [done|]; intros t' k' [=].
Qed.

(** With a dings interval of [secs] > 0 seconds the dings pipeline is
    seeded once at startup, its first fetch starts one full interval later
    and never earlier, and every dings fetch starts no sooner than the
    interval after the completion of every earlier one. *)
Theorem dings_polls_one_interval_apart options cams secs events :
  cameraDingsPollingSeconds options = Some secs ->
  0 < secs ->
  timer (dings (subscription options cams)) = Some (secs * 1000)
  /\ DingsFetch (secs * 1000) 0
     ∈ trace (run' (subscription options cams) [(secs * 1000, Tick)])
  /\ dings_spacing (secs * 1000)
       (trace (run' (subscription options cams) events)).
Proof.
  intros Ho Hs.
  assert (Htimer : timer (dings (subscription options cams))
                   = Some (secs * 1000)).
  { simpl. rewrite Ho. by apply debounce_delay_positive. }
  split; [done|]. split.
  - unfold run. cbn [fold_left]. rewrite step_running by done. cbv zeta.
    unfold advance.
    change (clock (subscription options cams)) with 0.
    rewrite Z.max_r by lia.
    unfold fire_dings.
    destruct (fire_status_frame (secs * 1000)
                (set_clock (secs * 1000) (subscription options cams)))
      as (_ & _ & _ & _ & _ & _ & ->).
    change (dings (set_clock (secs * 1000) (subscription options cams)))
      with (dings (subscription options cams)).
    rewrite Htimer, Z.leb_refl. simpl.
    apply elem_of_app. right. by apply list_elem_of_singleton.
  - assert (H0 : dings_polling_inv (secs * 1000) (subscription options cams)).
    { constructor; simpl; rewrite ?Ho, ?debounce_delay_positive; try done.
      - intros due [= <-]. split; [lia|]. intros c k Hin.
        by apply elem_of_nil in Hin.
      - intros c k Hin. by apply elem_of_nil in Hin.
      - intros pre t k post Heq. by destruct pre. }
    assert (HD : 0 <= secs * 1000) by lia.
    by destruct (run_preserves _
                   (fun l e => dings_polling_inv_step (secs * 1000) l e HD)
                   events _ H0).
Qed.

(** *** The polling chains *)

Lemma statusCycle_not_rejected rc : snd (statusCycle clientApi rc) ≠ Rejected.
Proof.
  pose proof (fetchRingDevices_cases clientApi rc) as Hc.
  unfold statusCycle, catch_null, mbind, async_bind.
  destruct (ring_devices rc) as [r|]; [|by rewrite Hc].
  destruct (using2fa rc && truthy_string (refreshToken rc)).
  - by destruct Hc as (m1 & m2 & ->).
  - by rewrite Hc.
Qed.

Lemma chain_inv_step l e : chain_inv l -> chain_inv (step' l e).
Proof.
  revert l e. apply step_preserves.
  - intros l t Ht [Hthr Hs Hd]. constructor; simpl; auto.
    intros u Hu. apply Hthr in Hu. lia.
  - intros l due Hdue Hle [Hthr Hs Hd]. unfold trigger. simpl.
    destruct (throttle_open (mergedThrottle l) due) eqn:Hopen.
    + constructor; simpl; auto;
        try (intros u [= <-]; lia); try (intros D _ _ _; left; eauto).
    + constructor; simpl; auto.
      intros D HD H500 Hh. destruct (Hs D HD H500 Hh)
        as [Hcur|(due' & Hdue' & Hu)]; [by left|].
      exfalso. assert (due' = due) by congruence. subst due'.
      unfold throttle_open in Hopen.
      destruct (mergedThrottle l) as [u|]; [|done].
      apply Z.leb_gt in Hopen. specialize (Hu u eq_refl). lia.
  - intros l due _ _ [Hthr Hs Hd]. constructor; simpl; auto;
      try (intros D _; left; eauto).
  - intros l _ [Hthr Hs Hd]. unfold trigger. simpl.
    destruct (throttle_open (mergedThrottle l) (clock l)).
    + constructor; simpl; auto;
        try (intros u [= <-]; lia); try (intros D _ _ _; left; eauto).
    + by constructor.
  - intros l k rc Hinv. unfold devicesSettled.
    case_bool_decide as Hin; [|done]. destruct Hinv as [Hthr Hs Hd].
    pose proof (statusCycle_not_rejected rc) as Hnr.
    destruct (snd (statusCycle clientApi rc)) as [cameraData| |];
      [|done|by constructor].
    case_bool_decide as Hcur.
    + unfold onCameraData. simpl.
      destruct cameraData; constructor; simpl; auto.
      all: intros D HD H500 _; right; rewrite HD; simpl;
        exists (clock l + D); split; [done|];
        intros u Hu; apply Hthr in Hu; lia.
    + constructor; simpl; auto.
      by rewrite bool_decide_eq_false_2 by done.
  - intros l k rc Hinv. unfold dingsSettled.
    case_bool_decide as Hin; [|done]. destruct Hinv as [Hthr Hs Hd].
    destruct (dingsCycle_resolved clientApi rc) as [activeDings ->].
    case_bool_decide as Hcur.
    + unfold onActiveDings. simpl.
      destruct activeDings as [[|a records]|]; constructor; simpl; auto.
      all: intros D HD; right; rewrite HD; simpl; eauto.
    + constructor; simpl; auto.
      by rewrite bool_decide_eq_false_2 by done.
Qed.

Lemma chain_inv_subscription options cams :
  chain_inv (subscription options cams).
Proof.
  constructor; simpl; try done.
  - intros D HD _ _. right. exists D. by rewrite HD.
  - intros D HD. right. by rewrite HD.
Qed.

(** A polling chain that was started never breaks.  With a status interval
    of whole seconds, as long as the process runs either a status fetch is
    awaited or the status timer is pending; with a dings interval, either
    a dings fetch is awaited or the dings timer is pending.  So polling
    stops only if a fetch never settles or the process exits. *)
Theorem polling_chain_never_breaks options cams events :
  (forall secs,
     cameraStatusPollingSeconds options = Some secs -> 0 < secs ->
     halted (run' (subscription options cams) events) = false ->
     is_Some (current (status (run' (subscription options cams) events)))
     \/ is_Some (timer (status (run' (subscription options cams) events))))
  /\ (forall secs,
        cameraDingsPollingSeconds options = Some secs -> 0 < secs ->
        is_Some (current (dings (run' (subscription options cams) events)))
        \/ is_Some (timer (dings (run' (subscription options cams) events)))).
Proof.
  pose proof (run_preserves _ chain_inv_step events _
                (chain_inv_subscription options cams)) as [_ Hs Hd].
  destruct (delays_run clientApi updateData processActiveDing
              (subscription options cams) events) as [EDs EDd].
  simpl in EDs, EDd. split.
  - intros secs Ho Hsecs Hh.
    assert (HD : statusDelay (run' (subscription options cams) events)
                 = Some (secs * 1000))
      by (by rewrite EDs, Ho, debounce_delay_positive).
    assert (H500 : 500 <= secs * 1000) by lia.
    destruct (Hs (secs * 1000) HD H500 Hh) as [Hcur|(due & Hdue & _)];
      [by left|].
    right. by rewrite Hdue.
  - intros secs Ho Hsecs. apply (Hd (secs * 1000)).
    by rewrite EDd, Ho, debounce_delay_positive.
Qed.

(** *** Results of replaced fetches *)

Lemma done_is_latest_snoc (tr : list Obs) o :
  done_is_latest tr ->
  (forall c k, o = StatusDone c k ->
     forall t k' src, StatusFetch t k' src ∈ tr -> (k' <= k)%nat) ->
  done_is_latest (tr ++ [o]).
Proof.
  intros Htr Ho pre c k post Heq.
  destruct post as [|y post _] using rev_ind.
  - apply app_inj_tail in Heq. destruct Heq as [<- ->].
    exact (Ho c k eq_refl).
  - rewrite app_comm_cons, app_assoc in Heq.
    apply app_inj_tail in Heq. destruct Heq as [-> _].
    by eapply Htr.
Qed.

Lemma latest_inv_log o l :
  is_status_fetch o = false -> (forall c k, o ≠ StatusDone c k) ->
  latest_inv l -> latest_inv (log o l).
Proof.
  intros Hf Hd [Hi Hc Hdone]. constructor; simpl; auto.
  - intros t k src Hin. apply elem_of_app in Hin.
    destruct Hin as [Hin|Hin]; [eauto|].
    apply list_elem_of_singleton in Hin. by subst o.
  - apply done_is_latest_snoc; [done|]. intros c k Heq. by apply Hd in Heq.
Qed.

Lemma latest_inv_trigger src t l :
  latest_inv l -> latest_inv (trigger src t l).
Proof.
  intros Hinv. unfold trigger.
  destruct (throttle_open (mergedThrottle l) t); [|done].
  destruct Hinv as [Hi Hc Hdone]. constructor; simpl.
  - intros t' k src' Hin. apply elem_of_app in Hin.
    destruct Hin as [Hin|Hin]; [apply Hi in Hin; lia|].
    apply list_elem_of_singleton in Hin. injection Hin as _ -> _. lia.
  - by intros k [= <-].
  - apply done_is_latest_snoc; [done|]. intros c k [=].
Qed.

Lemma latest_inv_step l e : latest_inv l -> latest_inv (step' l e).
Proof.
  revert l e. apply step_preserves.
  - intros l t _ [Hi Hc Hdone]. by constructor.
  - intros l due _ _ [Hi Hc Hdone]. apply latest_inv_trigger.
    by constructor.
  - intros l due _ _ Hinv.
    apply (latest_inv_log (DingsFetch due (issued (dings l)))
             (set_dings (start_fetch (set_pipeline_timer None (dings l))) l));
      [done|done|].
    destruct Hinv; by constructor.
  - intros l _ [Hi Hc Hdone]. apply latest_inv_trigger. by constructor.
  - intros l k rc Hinv. unfold devicesSettled.
    case_bool_decide as Hin; [|done]. destruct Hinv as [Hi Hc Hdone].
    assert (Hc' : forall j,
              current (settle_fetch k (status l)) = Some j ->
              S j = issued (status l)).
    { intros j. simpl. case_bool_decide; [done|]. apply Hc. }
    destruct (snd (statusCycle clientApi rc)) as [cameraData| |];
      [|by constructor|by constructor].
    case_bool_decide as Hcur; [|by constructor].
    apply Hc in Hcur.
    unfold onCameraData.
    destruct cameraData; constructor; simpl; auto.
    all: try (intros t k' src Hi'; apply elem_of_app in Hi';
              destruct Hi' as [Hi'|Hi']; [eauto|];
              by apply list_elem_of_singleton in Hi').
    all: apply done_is_latest_snoc; [done|];
      intros c k' [= _ <-] t k'' src Hi'; apply Hi in Hi'; lia.
  - intros l k rc Hinv. unfold dingsSettled.
    case_bool_decide as Hin; [|done].
    assert (Hs : latest_inv (set_dings (settle_fetch k (dings l)) l))
      by (destruct Hinv; by constructor).
    destruct (snd (dingsCycle clientApi rc)) as [activeDings| |]; [|done|].
    + case_bool_decide; [|done]. unfold onActiveDings.
      match goal with
      | |- context [log ?o ?l'] =>
          assert (Hl : latest_inv (log o l'))
            by (apply latest_inv_log;
                [done|done|destruct Hinv; by constructor])
      end.
      destruct activeDings as [[|a records]|]; try done.
      destruct Hl. by constructor.
    + destruct Hinv; by constructor.
Qed.

(** Only the result of the fetch started last is ever handed to the
    subscriber: when a completion of fetch [k] is logged, no fetch with a
    higher number had been started before it.  The result of a fetch that
    was replaced can therefore never overwrite newer data. *)
Theorem stale_results_are_never_dispatched options cams events :
  done_is_latest (trace (run' (subscription options cams) events)).
Proof.
  assert (H0 : latest_inv (subscription options cams)).
  { constructor; simpl; try done.
    - intros t k src Hin. by apply elem_of_nil in Hin.
    - intros pre c k post Heq. by destruct pre. }
  by destruct (run_preserves _ latest_inv_step events _ H0).
Qed.

(** *** The exit inside a polling cycle *)

Lemma run_halted l events : halted l = true -> run' l events = l.
Proof.
  intros Hh. induction events as [|e events IH]; [done|].
  rewrite run_cons.
  replace (step' l e) with l; [done|]. unfold step. by rewrite Hh.
Qed.

Lemma advance_keeps_inflight t l k :
  k ∈ inflight (status l) -> k ∈ inflight (status (advance t l)).
Proof.
  intros Hin. unfold advance.
  match goal with
  | |- context [fire_dings ?a ?b] =>
      destruct (fire_dings_frame a b) as (_ & _ & _ & _ & _ & _ & _ & -> & _)
  end.
  unfold fire_status. simpl.
  destruct (timer (status l)) as [due|]; [|done].
  destruct (due <=? Z.max (clock l) t); [|done].
  unfold trigger. simpl.
  destruct (throttle_open (mergedThrottle l) due); [|done].
  simpl. apply elem_of_cons. by right.
Qed.

Lemma statusCycle_exited rc :
  is_Some (ring_devices rc) -> using2fa rc = true ->
  truthy_string (refreshToken rc) = true ->
  snd (statusCycle clientApi rc) = Exited.
Proof.
  intros [r Hr] H2fa Htok.
  pose proof (fetchRingDevices_cases clientApi rc) as Hc.
  rewrite Hr, H2fa, Htok in Hc. destruct Hc as (m1 & m2 & Hc).
  unfold statusCycle, catch_null, mbind, async_bind. by rewrite Hc.
Qed.

(** The [catch] of a polling cycle absorbs a rejection, not the exit: when
    a snapshot fetch in flight - awaited or replaced - meets two-factor
    authentication with a refresh token, the process ends.  No camera is
    updated by that fetch and no later event has any effect. *)
Theorem exit_in_a_polling_cycle_ends_the_process l t k rc events :
  halted l = false ->
  k ∈ inflight (status l) ->
  is_Some (ring_devices rc) ->
  using2fa rc = true ->
  truthy_string (refreshToken rc) = true ->
  halted (step' l (t, DevicesSettled k rc)) = true
  /\ registered (step' l (t, DevicesSettled k rc)) = registered l
  /\ run' l ((t, DevicesSettled k rc) :: events)
     = step' l (t, DevicesSettled k rc).
Proof.
  intros Hh Hin Hr H2fa Htok.
  assert (Hstep : step' l (t, DevicesSettled k rc)
    = halt (set_status (settle_fetch k (status (advance t l)))
              (advance t l))).
  { rewrite step_running by done. cbv zeta. unfold devicesSettled.
    rewrite bool_decide_eq_true_2 by (by apply advance_keeps_inflight).
    by rewrite statusCycle_exited. }
  rewrite run_cons, Hstep. simpl.
  destruct (advance_frame t l) as (_ & -> & _).
  split; [done|]. split; [done|]. by apply run_halted.
Qed.

End Invariants.

(** ** The further properties on sample runs *)

Lemma no_status_interval_no_poll_witness :
  timer
    (status
       (run Sample.clientApi Sample.updateData Sample.processActiveDing
          (subscription (Sample.polling (Some 0) None) Sample.two_cameras)
          [(0, RequestUpdate 0); (400, DevicesSettled 0 Sample.online);
           (60000, Tick)])) = None
  /\ forall t k,
       StatusFetch t k Poll
       ∉ trace
           (run Sample.clientApi Sample.updateData Sample.processActiveDing
              (subscription (Sample.polling (Some 0) None) Sample.two_cameras)
              [(0, RequestUpdate 0); (400, DevicesSettled 0 Sample.online);
               (60000, Tick)]).
Proof.
  apply (no_status_interval_no_poll Sample.clientApi Sample.updateData
           Sample.processActiveDing (Sample.polling (Some 0) None)
           Sample.two_cameras).
  reflexivity.
Defined.

Lemma no_dings_interval_no_fetch_witness :
  timer
    (dings
       (run Sample.clientApi Sample.updateData Sample.processActiveDing
          (subscription (Sample.polling (Some 5) None) Sample.two_cameras)
          [(5000, Tick); (60000, Tick)])) = None
  /\ forall t k,
       DingsFetch t k
       ∉ trace
           (run Sample.clientApi Sample.updateData Sample.processActiveDing
              (subscription (Sample.polling (Some 5) None) Sample.two_cameras)
              [(5000, Tick); (60000, Tick)]).
Proof.
  apply (no_dings_interval_no_fetch Sample.clientApi Sample.updateData
           Sample.processActiveDing (Sample.polling (Some 5) None)
           Sample.two_cameras).
  reflexivity.
Defined.

Lemma dings_polls_one_interval_apart_witness :
  timer (dings (subscription (Sample.polling None (Some 7))
                  Sample.two_cameras)) = Some (7 * 1000)
  /\ DingsFetch (7 * 1000) 0
     ∈ trace
         (run Sample.clientApi Sample.updateData Sample.processActiveDing
            (subscription (Sample.polling None (Some 7)) Sample.two_cameras)
            [(7 * 1000, Tick)])
  /\ dings_spacing (7 * 1000)
       (trace
          (run Sample.clientApi Sample.updateData Sample.processActiveDing
             (subscription (Sample.polling None (Some 7)) Sample.two_cameras)
             [(7000, Tick); (7200, DingsSettled 0 Sample.online);
              (14200, Tick)])).
Proof.
  apply (dings_polls_one_interval_apart Sample.clientApi Sample.updateData
           Sample.processActiveDing (Sample.polling None (Some 7))
           Sample.two_cameras 7).
  - reflexivity.
  - lia.
Defined.


Lemma polling_chain_never_breaks_witness :
  (is_Some
     (current
        (status
           (run Sample.clientApi Sample.updateData Sample.processActiveDing
              (subscription (Sample.polling (Some 5) (Some 7))
                 Sample.two_cameras)
              [(5000, Tick); (5200, DevicesSettled 0 Sample.offline)])))
   \/ is_Some
        (timer
           (status
              (run Sample.clientApi Sample.updateData
                 Sample.processActiveDing
                 (subscription (Sample.polling (Some 5) (Some 7))
                    Sample.two_cameras)
                 [(5000, Tick); (5200, DevicesSettled 0 Sample.offline)]))))
  /\ (is_Some
        (current
           (dings
              (run Sample.clientApi Sample.updateData
                 Sample.processActiveDing
                 (subscription (Sample.polling (Some 5) (Some 7))
                    Sample.two_cameras)
                 [(5000, Tick); (5200, DevicesSettled 0 Sample.offline)])))
      \/ is_Some
           (timer
              (dings
                 (run Sample.clientApi Sample.updateData
                    Sample.processActiveDing
                    (subscription (Sample.polling (Some 5) (Some 7))
                       Sample.two_cameras)
                    [(5000, Tick); (5200, DevicesSettled 0 Sample.offline)])))).
Proof.
  destruct (polling_chain_never_breaks Sample.clientApi Sample.updateData
              Sample.processActiveDing (Sample.polling (Some 5) (Some 7))
              Sample.two_cameras
              [(5000, Tick); (5200, DevicesSettled 0 Sample.offline)])
    as [Hstatus Hdings].
  split.
  - apply (Hstatus 5); [reflexivity|lia|reflexivity].
  - apply (Hdings 7); [reflexivity|lia].
Defined.

Lemma exit_in_a_polling_cycle_ends_the_process_witness :
  halted
    (step Sample.clientApi Sample.updateData Sample.processActiveDing
       (run Sample.clientApi Sample.updateData Sample.processActiveDing
          (subscription (Sample.polling (Some 5) None) Sample.two_cameras)
          [(5000, Tick)])
       (5300, DevicesSettled 0
                (Sample.answers Sample.snapshot true (Some "token"))))
  = true
  /\ registered
       (step Sample.clientApi Sample.updateData Sample.processActiveDing
          (run Sample.clientApi Sample.updateData Sample.processActiveDing
             (subscription (Sample.polling (Some 5) None) Sample.two_cameras)
             [(5000, Tick)])
          (5300, DevicesSettled 0
                   (Sample.answers Sample.snapshot true (Some "token"))))
     = registered
         (run Sample.clientApi Sample.updateData Sample.processActiveDing
            (subscription (Sample.polling (Some 5) None) Sample.two_cameras)
            [(5000, Tick)])
  /\ run Sample.clientApi Sample.updateData Sample.processActiveDing
       (run Sample.clientApi Sample.updateData Sample.processActiveDing
          (subscription (Sample.polling (Some 5) None) Sample.two_cameras)
          [(5000, Tick)])
       ((5300, DevicesSettled 0
                 (Sample.answers Sample.snapshot true (Some "token")))
          :: [(5400, RequestUpdate 0); (20000, Tick)])
     = step Sample.clientApi Sample.updateData Sample.processActiveDing
         (run Sample.clientApi Sample.updateData Sample.processActiveDing
            (subscription (Sample.polling (Some 5) None) Sample.two_cameras)
            [(5000, Tick)])
         (5300, DevicesSettled 0
                  (Sample.answers Sample.snapshot true (Some "token"))).
Proof.
  apply (exit_in_a_polling_cycle_ends_the_process Sample.clientApi
           Sample.updateData Sample.processActiveDing).
  - reflexivity.
  - apply list_elem_of_In. vm_compute. tauto.
  - eexists. reflexivity.
  - reflexivity.
  - reflexivity.
Defined.
